(** * EduMedia: the per-user undo stack of the posts API

    A shallow embedding of the undo subsystem of the EduMedia server
    (class [UndoStack] and the handlers [PUT /api/posts/edit],
    [DELETE /api/posts/delete], [POST /api/posts/undo] and
    [GET /api/posts/undo-status]), followed by the properties the
    specification states about it.

    Conventions of the embedding:
    - the process-wide [Map] from user id to array of actions is a
      [gmap Z (list action)]; an array is a list whose head is the oldest
      entry (index 0) and whose last element is the most recent one;
    - methods that mutate the map return the new map next to their result;
    - the hosted database is an external collaborator: its tables are
      modelled by finite maps and lists, and every call to it takes an
      injected fault ([Some msg] makes the call answer with the error [msg]
      and leaves the tables as they were);
    - JavaScript strings are sequences of UTF-16 code units. *)

From Stdlib Require Import ZArith NArith List Lia.
From stdpp Require Import gmap strings list fin_maps pretty.

Local Open Scope Z_scope.

(** ** JavaScript strings *)

Module JS.

(** A string value: its UTF-16 code units. *)
Definition str := list N.

(** The code units of an ASCII literal. *)
Definition lit (s : string) : str :=
  map (fun c => N.of_nat (Ascii.nat_of_ascii c)) (String.list_ascii_of_string s).

(** WhiteSpace and LineTerminator code points of ECMAScript, the set
    [String.prototype.trim] strips. *)
Definition is_white_space (c : N) : bool :=
  (bool_decide (c ∈ [9; 10; 11; 12; 13; 32; 160; 5760; 8232; 8233;
                     8239; 8287; 12288; 65279])%N
   || ((8192 <=? c) && (c <=? 8202))%N)%bool.

Fixpoint trim_start (s : str) : str :=
  match s with
  | c :: s' => if is_white_space c then trim_start s' else s
  | [] => []
  end.

(** [s.trim()] *)
Definition trim (s : str) : str :=
  rev (trim_start (rev (trim_start s))).

End JS.

(** ** Rows and recorded actions *)

(** A row of the [posts] table: the columns the server reads and writes. *)
Record post := Post {
  id : Z;
  author_id : Z;
  content : JS.str;
  likes : Z;
  created_at : string
}.

(** An entry of a user's undo array.  The handlers build objects tagged
    ['EDIT'] and ['DELETE']; [Other ty ts] stands for an object whose [type]
    field [ty] is neither of the two. *)
Inductive action :=
| Edit (post_id : Z) (original_content new_content : JS.str) (timestamp : string)
| Delete (p : post) (timestamp : string)
| Other (type : string) (timestamp : string).

Definition action_type (a : action) : string :=
  match a with
  | Edit _ _ _ _ => "EDIT"
  | Delete _ _ => "DELETE"
  | Other ty _ => ty
  end.

Definition action_timestamp (a : action) : string :=
  match a with
  | Edit _ _ _ ts => ts
  | Delete _ ts => ts
  | Other _ ts => ts
  end.

(** ** class UndoStack *)

Module UndoStack.

(** [this.stacks]: userId -> array of actions. *)
Abbreviation t := (gmap Z (list action)).

(** [new UndoStack()] *)
Definition empty : t := ∅.

(** [this.stacks.has(userId)] *)
Definition has (userId : Z) (stacks : t) : bool :=
  bool_decide (is_Some (stacks !! userId)).

(** [this.stacks.get(userId)], read where the key is known to be present. *)
Definition get (userId : Z) (stacks : t) : list action :=
  default [] (stacks !! userId).

(** [Array.prototype.shift]: drops index 0. *)
Definition shift (arr : list action) : list action := tail arr.

(** [push(userId, action)] *)
Definition push (userId : Z) (a : action) (stacks : t) : t :=
  let stacks1 :=
    if negb (has userId stacks) then <[userId := []]> stacks else stacks in
  let stacks2 := <[userId := get userId stacks1 ++ [a]]> stacks1 in
  if (10 <? length (get userId stacks2))%nat
  then <[userId := shift (get userId stacks2)]> stacks2
  else stacks2.

(** [pop(userId)]: the removed entry ([None] is [null]) and the new map. *)
Definition pop (userId : Z) (stacks : t) : option action * t :=
  if negb (has userId stacks) || (length (get userId stacks) =? 0)%nat
  then (None, stacks)
  else (last (get userId stacks),
        <[userId := removelast (get userId stacks)]> stacks).

(** [peek(userId)] *)
Definition peek (userId : Z) (stacks : t) : option action :=
  if negb (has userId stacks) || (length (get userId stacks) =? 0)%nat
  then None
  else let stack := get userId stacks in
       stack !! (length stack - 1)%nat.

(** [isEmpty(userId)] *)
Definition isEmpty (userId : Z) (stacks : t) : bool :=
  negb (has userId stacks) || (length (get userId stacks) =? 0)%nat.

(** [clear(userId)] *)
Definition clear (userId : Z) (stacks : t) : t :=
  if has userId stacks then delete userId stacks else stacks.

(** [size(userId)] *)
Definition size (userId : Z) (stacks : t) : nat :=
  if has userId stacks then length (get userId stacks) else 0%nat.

(** The six methods as one interface: a call, what it returns and the
    map it leaves behind. *)
Inductive call :=
| Push (a : action)
| Pop
| Peek
| IsEmpty
| Clear
| Size.

Inductive value :=
| VUndefined
| VAction (a : option action)
| VBool (b : bool)
| VNumber (n : nat).

Definition invoke (userId : Z) (c : call) (stacks : t) : value * t :=
  match c with
  | Push a => (VUndefined, push userId a stacks)
  | Pop => (VAction (pop userId stacks).1, (pop userId stacks).2)
  | Peek => (VAction (peek userId stacks), stacks)
  | IsEmpty => (VBool (isEmpty userId stacks), stacks)
  | Clear => (VUndefined, clear userId stacks)
  | Size => (VNumber (size userId stacks), stacks)
  end.

(** The maps a running server can hold: built from the constructor's empty
    map by method calls. *)
Inductive reachable : t -> Prop :=
| reachable_empty : reachable empty
| reachable_invoke userId c stacks :
    reachable stacks -> reachable (invoke userId c stacks).2.

(** Every array holds at most 10 entries. *)
Definition bounded (stacks : t) : Prop :=
  forall userId arr, stacks !! userId = Some arr -> (length arr <= 10)%nat.

(** What [push] leaves of an array [arr] when it adds [a]: the array with
    [a] appended, without its first entry when that makes more than 10. *)
Definition pushed (arr : list action) (a : action) : list action :=
  if (10 <? length (arr ++ [a]))%nat then shift (arr ++ [a]) else arr ++ [a].

(** [push] of each action of [l] in turn, oldest first. *)
Definition push_all (userId : Z) (l : list action) (stacks : t) : t :=
  fold_left (fun st a => push userId a st) l stacks.

(** [n] successive [pop]s: the entries returned (nulls left out), first
    pop first, and the map left behind. *)
Fixpoint pop_many (n : nat) (userId : Z) (stacks : t) : list action * t :=
  match n with
  | O => ([], stacks)
  | S n' =>
      let '(r, stacks1) := pop userId stacks in
      let '(rs, stacks2) := pop_many n' userId stacks1 in
      (match r with Some a => a :: rs | None => rs end, stacks2)
  end.

End UndoStack.

(** ** The hosted database *)

(** What a query resolves to: [{ data, error }] with exactly one of the two
    set. *)
Inductive reply (A : Type) :=
| Data (x : A)
| Error (message : string).
Arguments Data {A} x.
Arguments Error {A} message.

Record like := Like { like_post_id : Z; like_user_id : Z }.

Record comment := Comment {
  comment_id : Z;
  comment_post_id : Z;
  comment_author_id : Z;
  comment_text : JS.str
}.

Module PostStore.

(** The columns of a [posts] row next to its primary key. *)
Record columns := Columns {
  col_author_id : Z;
  col_content : JS.str;
  col_likes : Z;
  col_created_at : string
}.

(** The tables the handlers touch; [posts] is keyed by its primary key. *)
Record t := Db {
  posts : gmap Z columns;
  likes_table : list like;
  comments_table : list comment
}.

Definition row (k : Z) (c : columns) : post :=
  Post k (col_author_id c) (col_content c) (col_likes c) (col_created_at c).

Definition columns_of (p : post) : columns :=
  Columns (author_id p) (content p) (likes p) (created_at p).

(** The error of [.single()] when the request does not yield one row. *)
Definition no_single_row : string :=
  "JSON object requested, multiple (or no) rows returned".

(** The error of an insert whose primary key is taken. *)
Definition duplicate_key : string :=
  "duplicate key value violates unique constraint".

(** [from('posts').select('*').eq('id', k).eq('author_id', u).single()] *)
Definition select_single (fault : option string) (k u : Z) (d : t) : reply post :=
  match fault with
  | Some e => Error e
  | None =>
      match posts d !! k with
      | Some c => if col_author_id c =? u then Data (row k c) else Error no_single_row
      | None => Error no_single_row
      end
  end.

(** [from('posts').update({ content }).eq('id', k).eq('author_id', u)
    .select().single()] *)
Definition update_single (fault : option string) (k u : Z) (new_content : JS.str)
    (d : t) : t * reply post :=
  match fault with
  | Some e => (d, Error e)
  | None =>
      match posts d !! k with
      | Some c =>
          if col_author_id c =? u then
            let c' := Columns (col_author_id c) new_content (col_likes c)
                        (col_created_at c) in
            (Db (<[k := c']> (posts d)) (likes_table d) (comments_table d),
             Data (row k c'))
          else (d, Error no_single_row)
      | None => (d, Error no_single_row)
      end
  end.

(** [from('posts').insert([p]).select().single()] *)
Definition insert_single (fault : option string) (p : post) (d : t) : t * reply post :=
  match fault with
  | Some e => (d, Error e)
  | None =>
      match posts d !! id p with
      | Some _ => (d, Error duplicate_key)
      | None =>
          (Db (<[id p := columns_of p]> (posts d)) (likes_table d) (comments_table d),
           Data p)
      end
  end.

(** [from('posts').delete().eq('id', k).eq('author_id', u)]: the error, if
    any.  Deleting no row is not an error. *)
Definition delete_post (fault : option string) (k u : Z) (d : t) : t * option string :=
  match fault with
  | Some e => (d, Some e)
  | None =>
      match posts d !! k with
      | Some c =>
          if col_author_id c =? u
          then (Db (delete k (posts d)) (likes_table d) (comments_table d), None)
          else (d, None)
      | None => (d, None)
      end
  end.

(** [from('likes').delete().eq('post_id', k)] *)
Definition delete_likes (fault : option string) (k : Z) (d : t) : t * option string :=
  match fault with
  | Some e => (d, Some e)
  | None =>
      (Db (posts d) (filter (fun l => like_post_id l ≠ k) (likes_table d))
          (comments_table d), None)
  end.

(** [from('comments').delete().eq('post_id', k)] *)
Definition delete_comments (fault : option string) (k : Z) (d : t) : t * option string :=
  match fault with
  | Some e => (d, Some e)
  | None =>
      (Db (posts d) (likes_table d)
          (filter (fun c => comment_post_id c ≠ k) (comments_table d)), None)
  end.

(** [from('likes').select('*', { count: 'exact', head: true })
    .eq('post_id', k)]: the [count] field, [None] for [null]. *)
Definition count_likes (fault : option string) (k : Z) (d : t) : option nat :=
  match fault with
  | Some _ => None
  | None => Some (length (filter (fun l => like_post_id l = k) (likes_table d)))
  end.

(** The same query on [comments]. *)
Definition count_comments (fault : option string) (k : Z) (d : t) : option nat :=
  match fault with
  | Some _ => None
  | None => Some (length (filter (fun c => comment_post_id c = k) (comments_table d)))
  end.

End PostStore.

(** ** The request handlers *)

(** The two process-wide pieces of state a handler works on. *)
Record server := Server {
  undoStack : UndoStack.t;
  db : PostStore.t
}.

(** The [post] object of an undo response. *)
Record post_view := PostView {
  pv_post_id : Z;
  pv_content : JS.str;
  pv_timestamp : string;
  pv_likes_count : nat;
  pv_comments_count : nat
}.

(** The [data] field of a success response. *)
Inductive data :=
| EditData (p : post) (undo_available : bool)
| DeleteData (deleted_post_id : Z) (undo_available : bool)
| UndoData (action : string) (p : post_view) (remaining_undos : nat)
| StatusData (undo_available : bool) (undo_count : nat)
    (last_action : option (string * string)).

(** [res.status(status).json({ success, message, error, data })] *)
Record response := Response {
  status : Z;
  success : bool;
  message : option string;
  error : option string;
  body : option data
}.

Definition failure (code : Z) (msg : string) (err : option string) : response :=
  Response code false (Some msg) err None.

Definition ok (msg : string) (d : data) : response :=
  Response 200 true (Some msg) None (Some d).

(** [req.body] of [PUT /api/posts/edit]; [None] is a missing field. *)
Record edit_body := EditBody {
  eb_post_id : option Z;
  eb_content : option JS.str
}.

(** [req.body] of [DELETE /api/posts/delete]. *)
Record delete_body := DeleteBody {
  db_post_id : option Z
}.

(** [!post_id] for a numeric id: missing or zero. *)
Definition not_id (x : option Z) : bool :=
  match x with
  | Some k => k =? 0
  | None => true
  end.

(** [!content] for a string: missing or empty. *)
Definition not_str (x : option JS.str) : bool :=
  match x with
  | Some s => (length s =? 0)%nat
  | None => true
  end.

(** [count || 0] *)
Definition or_zero (count : option nat) : nat := default 0%nat count.

(** Injected faults, one per database call of a handler, in call order. *)
Record edit_faults := EditFaults {
  ef_fetch : option string;
  ef_update : option string
}.

Record delete_faults := DeleteFaults {
  df_fetch : option string;
  df_likes : option string;
  df_comments : option string;
  df_post : option string
}.

Record undo_faults := UndoFaults {
  uf_restore : option string;
  uf_likes : option string;
  uf_comments : option string
}.

(** [PUT /api/posts/edit]; [now] is [new Date().toISOString()]. *)
Definition edit (userId : Z) (req : edit_body) (now : string) (f : edit_faults)
    (sv : server) : server * response :=
  if not_id (eb_post_id req) || not_str (eb_content req) then
    (sv, failure 400 "Post ID and content are required" None)
  else
    let post_id := default 0 (eb_post_id req) in
    let content' := default [] (eb_content req) in
    if (length (JS.trim content') =? 0)%nat then
      (sv, failure 400 "Post content cannot be empty" None)
    else
      match PostStore.select_single (ef_fetch f) post_id userId (db sv) with
      | Error _ =>
          (sv, failure 404
                 "Post not found or you do not have permission to edit it" None)
      | Data originalPost =>
          let stacks :=
            UndoStack.push userId
              (Edit (id originalPost) (content originalPost)
                 (JS.trim content') now)
              (undoStack sv) in
          match PostStore.update_single (ef_update f) post_id userId
                  (JS.trim content') (db sv) with
          | (d, Error e) =>
              (Server stacks d, failure 500 "Failed to update post" (Some e))
          | (d, Data updatedPost) =>
              (Server stacks d,
               ok "Post updated successfully" (EditData updatedPost true))
          end
      end.

(** [DELETE /api/posts/delete] *)
Definition delete_ (userId : Z) (req : delete_body) (now : string)
    (f : delete_faults) (sv : server) : server * response :=
  if not_id (db_post_id req) then
    (sv, failure 400 "Post ID is required" None)
  else
    let post_id := default 0 (db_post_id req) in
    match PostStore.select_single (df_fetch f) post_id userId (db sv) with
    | Error _ =>
        (sv, failure 404
               "Post not found or you do not have permission to delete it" None)
    | Data postToDelete =>
        let stacks :=
          UndoStack.push userId
            (Delete (Post (id postToDelete) (author_id postToDelete)
                       (content postToDelete) (likes postToDelete)
                       (created_at postToDelete)) now)
            (undoStack sv) in
        let '(d1, _) := PostStore.delete_likes (df_likes f) post_id (db sv) in
        let '(d2, _) := PostStore.delete_comments (df_comments f) post_id d1 in
        match PostStore.delete_post (df_post f) post_id userId d2 with
        | (d3, Some e) =>
            (Server stacks d3, failure 500 "Failed to delete post" (Some e))
        | (d3, None) =>
            (Server stacks d3,
             ok "Post deleted successfully" (DeleteData post_id true))
        end
    end.

(** The [post] object both undo branches answer with. *)
Definition view (f : undo_faults) (restoredPost : post) (d : PostStore.t) : post_view :=
  PostView (id restoredPost) (content restoredPost) (created_at restoredPost)
    (or_zero (PostStore.count_likes (uf_likes f) (id restoredPost) d))
    (or_zero (PostStore.count_comments (uf_comments f) (id restoredPost) d)).

(** [POST /api/posts/undo] *)
Definition undo (userId : Z) (f : undo_faults) (sv : server) : server * response :=
  if UndoStack.isEmpty userId (undoStack sv) then
    (sv, failure 400 "No actions to undo" None)
  else
    let '(popped, stacks) := UndoStack.pop userId (undoStack sv) in
    match popped with
    | None =>
        (* reading [.type] of [null] throws; the handler's catch answers *)
        (Server stacks (db sv),
         failure 500 "Internal server error"
           (Some "Cannot read properties of null (reading 'type')"))
    | Some (Edit post_id original_content _ _ as lastAction) =>
        match PostStore.update_single (uf_restore f) post_id userId
                original_content (db sv) with
        | (d, Error e) =>
            (Server (UndoStack.push userId lastAction stacks) d,
             failure 500 "Failed to undo edit" (Some e))
        | (d, Data restoredPost) =>
            (Server stacks d,
             ok "Edit undone successfully"
               (UndoData "UNDO_EDIT" (view f restoredPost d)
                  (UndoStack.size userId stacks)))
        end
    | Some (Delete p _ as lastAction) =>
        match PostStore.insert_single (uf_restore f)
                (Post (id p) (author_id p) (content p) (likes p) (created_at p))
                (db sv) with
        | (d, Error e) =>
            (Server (UndoStack.push userId lastAction stacks) d,
             failure 500 "Failed to undo delete" (Some e))
        | (d, Data restoredPost) =>
            (Server stacks d,
             ok "Delete undone successfully"
               (UndoData "UNDO_DELETE" (view f restoredPost d)
                  (UndoStack.size userId stacks)))
        end
    | Some (Other _ _) =>
        (Server stacks (db sv), failure 400 "Unknown action type" None)
    end.

(** [GET /api/posts/undo-status] *)
Definition undo_status (userId : Z) (sv : server) : server * response :=
  let isEmpty := UndoStack.isEmpty userId (undoStack sv) in
  let size := UndoStack.size userId (undoStack sv) in
  let lastAction := UndoStack.peek userId (undoStack sv) in
  (sv,
   Response 200 true None None
     (Some (StatusData (negb isEmpty) size
              (match lastAction with
               | Some a => Some (action_type a, action_timestamp a)
               | None => None
               end)))).

(** [remaining_undos] of a response, when it carries one. *)
Definition remaining_undos_of (r : response) : option nat :=
  match body r with
  | Some (UndoData _ _ n) => Some n
  | _ => None
  end.

(** The [post] object of an undo response, when it carries one. *)
Definition restored_of (r : response) : option post_view :=
  match body r with
  | Some (UndoData _ p _) => Some p
  | _ => None
  end.

(** The database write [undo] performs for a popped entry; none for an
    entry that is neither an edit nor a delete. *)
Definition restore_write (userId : Z) (f : undo_faults) (a : action)
    (d : PostStore.t) : option (PostStore.t * reply post) :=
  match a with
  | Edit post_id original_content _ _ =>
      Some (PostStore.update_single (uf_restore f) post_id userId
              original_content d)
  | Delete p _ => Some (PostStore.insert_single (uf_restore f) p d)
  | Other _ _ => None
  end.


(** ** Concrete data *)

(** Sample undo entries. *)
Definition sample_edit (n : Z) : action :=
  Edit n (JS.lit "before") (JS.lit "after") "2025-01-01T00:00:00.000Z".

(** The post an undo entry is about (0 for an entry of another type). *)
Definition action_post_id (a : action) : Z :=
  match a with
  | Edit post_id _ _ _ => post_id
  | Delete p _ => id p
  | Other _ _ => 0
  end.

Definition sample_actions (n : nat) : list action :=
  map (fun k => sample_edit (Z.of_nat k)) (seq 1 n).

(** A database in which user 7 owns post 1 and user 8 owns post 2. *)
Definition sample_db : PostStore.t :=
  PostStore.Db
    {[ 1 := PostStore.Columns 7 (JS.lit "A") 3 "2024-12-31T10:00:00.000Z";
       2 := PostStore.Columns 8 (JS.lit "theirs") 0 "2024-12-31T11:00:00.000Z" ]}
    [Like 1 8; Like 1 9]
    [Comment 1 1 8 (JS.lit "nice")].

Definition sample_now : string := "2025-01-02T00:00:00.000Z".

Definition no_edit_faults : edit_faults := EditFaults None None.
Definition no_delete_faults : delete_faults := DeleteFaults None None None None.
Definition no_undo_faults : undo_faults := UndoFaults None None None.

(** A fresh server, and one on which user 7 has ten recorded actions. *)
Definition fresh_server : server := Server UndoStack.empty sample_db.

Definition full_server : server :=
  Server (UndoStack.push_all 7 (sample_actions 10) UndoStack.empty) sample_db.

(** ** Requests in sequence *)

(** The fields of an undo-status response, when it carries them. *)
Definition status_of (r : response)
    : option (bool * nat * option (string * string)) :=
  match body r with
  | Some (StatusData available count last) => Some (available, count, last)
  | _ => None
  end.

(** A request to one of the four undo endpoints, with what the environment
    contributes to it (the clock, the injected faults). *)
Inductive request :=
| PutEdit (userId : Z) (req : edit_body) (now : string) (f : edit_faults)
| DeletePost (userId : Z) (req : delete_body) (now : string) (f : delete_faults)
| PostUndo (userId : Z) (f : undo_faults)
| GetUndoStatus (userId : Z).

Definition handle (rq : request) (sv : server) : server * response :=
  match rq with
  | PutEdit userId req now f => edit userId req now f sv
  | DeletePost userId req now f => delete_ userId req now f sv
  | PostUndo userId f => undo userId f sv
  | GetUndoStatus userId => undo_status userId sv
  end.

(** The server after a sequence of requests served one after the other. *)
Definition serve (rqs : list request) (sv : server) : server :=
  fold_left (fun st rq => (handle rq st).1) rqs sv.

(** The user a request is made for. *)
Definition request_user (rq : request) : Z :=
  match rq with
  | PutEdit userId _ _ _ => userId
  | DeletePost userId _ _ _ => userId
  | PostUndo userId _ => userId
  | GetUndoStatus userId => userId
  end.

(** A row with another content. *)
Definition with_content (c : PostStore.columns) (s : JS.str) : PostStore.columns :=
  PostStore.Columns (PostStore.col_author_id c) s (PostStore.col_likes c)
    (PostStore.col_created_at c).

(** A database with another [posts] table. *)
Definition with_posts (d : PostStore.t) (m : gmap Z PostStore.columns) : PostStore.t :=
  PostStore.Db m (PostStore.likes_table d) (PostStore.comments_table d).

(** * The browser client: its data structures *)

(** A method that returns [null] on an empty structure returns [None]. *)

(** ** class Queue *)

Module Queue.

(** [this.items] *)
Record t (A : Type) := Make { items : list A }.
Arguments Make {A} _.
Arguments items {A} _.

(** [new Queue()] *)
Definition empty {A} : t A := Make [].

Definition isEmpty {A} (q : t A) : bool := (length (items q) =? 0)%nat.

Definition enqueue {A} (element : A) (q : t A) : t A :=
  Make (items q ++ [element]).

(** [dequeue()]: what it returns and the queue it leaves. *)
Definition dequeue {A} (q : t A) : option A * t A :=
  if isEmpty q then (None, q) else (head (items q), Make (tail (items q))).

Definition front {A} (q : t A) : option A :=
  if isEmpty q then None else items q !! 0%nat.

Definition size {A} (q : t A) : nat := length (items q).

Definition toArray {A} (q : t A) : list A := items q.

Definition clear {A} (q : t A) : t A := Make [].

(** [enqueue] of each element of [xs] in turn. *)
Definition enqueue_all {A} (xs : list A) (q : t A) : t A :=
  fold_left (fun st x => enqueue x st) xs q.

(** [n] successive [dequeue]s: the elements returned (nulls left out), in
    the order returned, and the queue left. *)
Fixpoint dequeue_many {A} (n : nat) (q : t A) : list A * t A :=
  match n with
  | O => ([], q)
  | S n' =>
      let '(r, q1) := dequeue q in
      let '(rs, q2) := dequeue_many n' q1 in
      (match r with Some x => x :: rs | None => rs end, q2)
  end.

End Queue.

(** ** class Stack *)

Module Stack.

(** [this.items] *)
Record t (A : Type) := Make { items : list A }.
Arguments Make {A} _.
Arguments items {A} _.

(** [new Stack()] *)
Definition empty {A} : t A := Make [].

Definition isEmpty {A} (s : t A) : bool := (length (items s) =? 0)%nat.

Definition push {A} (element : A) (s : t A) : t A :=
  Make (items s ++ [element]).

(** [pop()]: what it returns and the stack it leaves. *)
Definition pop {A} (s : t A) : option A * t A :=
  if isEmpty s then (None, s)
  else (last (items s), Make (removelast (items s))).

Definition peek {A} (s : t A) : option A :=
  if isEmpty s then None else items s !! (length (items s) - 1)%nat.

Definition size {A} (s : t A) : nat := length (items s).

Definition toArray {A} (s : t A) : list A := items s.

Definition clear {A} (s : t A) : t A := Make [].

(** [push] of each element of [xs] in turn. *)
Definition push_all {A} (xs : list A) (s : t A) : t A :=
  fold_left (fun st x => push x st) xs s.

(** [n] successive [pop]s: the elements returned (nulls left out), in the
    order returned, and the stack left. *)
Fixpoint pop_many {A} (n : nat) (s : t A) : list A * t A :=
  match n with
  | O => ([], s)
  | S n' =>
      let '(r, s1) := pop s in
      let '(rs, s2) := pop_many n' s1 in
      (match r with Some x => x :: rs | None => rs end, s2)
  end.

End Stack.

(** ** class Node, class LinkedList *)

Module LinkedList.

(** A [next] field: [null] or a node with its [data] and its own [next]. *)
Inductive link (A : Type) :=
| Null
| Node (data : A) (next : link A).
Arguments Null {A}.
Arguments Node {A} _ _.

(** [this.head] and [this.size]; the counter is kept by hand. *)
Record t (A : Type) := Make { head : link A; size : Z }.
Arguments Make {A} _ _.
Arguments head {A} _.
Arguments size {A} _.

(** [new LinkedList()] *)
Definition empty {A} : t A := Make Null 0.

(** The loop of [add]: walk from [current] while it has a [next], then set
    the [next] of the last node to [newNode]. *)
Fixpoint attach {A} (current newNode : link A) : link A :=
  match current with
  | Null => newNode
  | Node d next =>
      match next with
      | Null => Node d newNode
      | Node _ _ => Node d (attach next newNode)
      end
  end.

Definition add {A} (data : A) (l : t A) : t A :=
  let newNode := Node data Null in
  Make (match head l with
        | Null => newNode
        | Node _ _ => attach (head l) newNode
        end)
       (size l + 1).

(** The loop of [remove]: walk from [current] while it has a [next]; at the
    first node whose successor carries [id], unlink the successor.  [None]
    when the walk ends without a match. *)
Fixpoint unlink_next {A K} `{EqDecision K} (id_of : A -> K) (id : K)
    (current : link A) : option (link A) :=
  match current with
  | Null => None
  | Node d next =>
      match next with
      | Null => None
      | Node d' next' =>
          if decide (id_of d' = id) then Some (Node d next')
          else match unlink_next id_of id next with
               | Some next1 => Some (Node d next1)
               | None => None
               end
      end
  end.

(** [remove(id)]: what it returns and the list it leaves; [id_of] reads the
    [id] field of a [data] object. *)
Definition remove {A K} `{EqDecision K} (id_of : A -> K) (id : K) (l : t A)
    : bool * t A :=
  match head l with
  | Null => (false, l)
  | Node d next =>
      if decide (id_of d = id) then (true, Make next (size l - 1))
      else match unlink_next id_of id (head l) with
           | Some h => (true, Make h (size l - 1))
           | None => (false, l)
           end
  end.

(** The loop of [find]. *)
Fixpoint search {A K} `{EqDecision K} (id_of : A -> K) (id : K)
    (current : link A) : option A :=
  match current with
  | Null => None
  | Node d next =>
      if decide (id_of d = id) then Some d else search id_of id next
  end.

Definition find {A K} `{EqDecision K} (id_of : A -> K) (id : K) (l : t A)
    : option A :=
  search id_of id (head l).

(** The loop of [toArray]. *)
Fixpoint collect {A} (current : link A) : list A :=
  match current with
  | Null => []
  | Node d next => d :: collect next
  end.

Definition toArray {A} (l : t A) : list A := collect (head l).

Definition isEmpty {A} (l : t A) : bool := size l =? 0.

Definition getSize {A} (l : t A) : Z := size l.

Definition clear {A} (l : t A) : t A := Make Null 0.

(** The calls that change a list, and the lists a client can hold: built
    from the constructor's by such calls. *)
Inductive reachable {A K} `{EqDecision K} (id_of : A -> K) : t A -> Prop :=
| reachable_empty : reachable id_of empty
| reachable_add data l : reachable id_of l -> reachable id_of (add data l)
| reachable_remove id l :
    reachable id_of l -> reachable id_of (remove id_of id l).2
| reachable_clear l : reachable id_of l -> reachable id_of (clear l).

End LinkedList.

(** ** class NavigationStack *)

Module NavigationStack.

(** An entry of [this.stack]. *)
Record entry := Entry {
  page : string;
  timestamp : Z;
  scrollPosition : Z
}.

(** The two style properties of the back button the class sets. *)
Record style := Style { display : string; opacity : string }.

(** [this.stack], and the style of the element with id ['backBtn'] when
    the document has one. *)
Record t := Make { stack : list entry; backBtn : option style }.

Definition isEmpty (s : t) : bool := (length (stack s) =? 0)%nat.

Definition size (s : t) : nat := length (stack s).

Definition updateBackButtonVisibility (s : t) : t :=
  match backBtn s with
  | Some _ =>
      if (1 <? size s)%nat
      then Make (stack s) (Some (Style "flex" "1"))
      else Make (stack s) (Some (Style "none" "0"))
  | None => s
  end.

(** [push(page)]; [now] is [new Date()] in milliseconds and [scrollY] is
    [window.scrollY], a number, so that [window.scrollY || 0] is that
    number. *)
Definition push (page : string) (now scrollY : Z) (s : t) : t :=
  updateBackButtonVisibility
    (Make (stack s ++ [Entry page now scrollY]) (backBtn s)).

(** [pop()]: what it returns and the state it leaves. *)
Definition pop (s : t) : option entry * t :=
  if isEmpty s then (None, s)
  else
    (last (stack s),
     updateBackButtonVisibility (Make (removelast (stack s)) (backBtn s))).

Definition peek (s : t) : option entry :=
  if isEmpty s then None else stack s !! (length (stack s) - 1)%nat.

Definition getPreviousPage (s : t) : option string :=
  if (size s <? 2)%nat then None
  else page <$> stack s !! (length (stack s) - 2)%nat.

Definition clear (s : t) : t :=
  updateBackButtonVisibility (Make [] (backBtn s)).

Definition toArray (s : t) : list string := map page (stack s).

(** [navigateBack()]: the page to show, if any, and the state it leaves. *)
Definition navigateBack (s : t) : option string * t :=
  let '(currentPage, s1) := pop s in
  if isEmpty s1 then (None, s1)
  else
    match peek s1 with
    | Some previousPage => (Some (page previousPage), s1)
    | None => (None, s1)
    end.

(** The back button is shown exactly when there is a page to go back to. *)
Definition button_in_step (s : t) : Prop :=
  forall st, backBtn s = Some st ->
    st = if (1 <? size s)%nat then Style "flex" "1" else Style "none" "0".

End NavigationStack.

(** ** getTimeAgo *)

(** [getTimeAgo(date)]; [now] is [new Date()], both in milliseconds since
    the epoch. *)
Definition getTimeAgo (now date : Z) : string :=
  let seconds := (now - date) / 1000 in
  if seconds <? 60 then "Just now"
  else
    let minutes := seconds / 60 in
    if minutes <? 60 then
      pretty minutes +:+ " minute" +:+ (if 1 <? minutes then "s" else "")
        +:+ " ago"
    else
      let hours := minutes / 60 in
      if hours <? 24 then
        pretty hours +:+ " hour" +:+ (if 1 <? hours then "s" else "")
          +:+ " ago"
      else
        let days := hours / 24 in
        pretty days +:+ " day" +:+ (if 1 <? days then "s" else "") +:+ " ago".

(** * The likes and comments endpoints *)

Module Social.

(** The [data] field of a success response of these endpoints. *)
Inductive data :=
| LikeData (like_id post_id : Z) (likes_count : nat)
| UnlikeData (post_id : Z) (likes_count : nat)
| CommentAdded (c : comment) (comments_count : nat)
| CommentEdited (c : comment) (old_text : JS.str)
| CommentDeleted (deleted_comment : comment) (comments_count : nat).

(** [res.status(status).json({ success, message, error, data })] *)
Record response := Response {
  status : Z;
  success : bool;
  message : string;
  error : option string;
  body : option data
}.

Definition failure (code : Z) (msg : string) (err : option string) : response :=
  Response code false msg err None.

Definition ok (code : Z) (msg : string) (d : data) : response :=
  Response code true msg None (Some d).

(** [.single()] on the rows a request yields. *)
Definition single {A} (rows : list A) : reply A :=
  match rows with
  | [x] => Data x
  | _ => Error PostStore.no_single_row
  end.

(** A database with another [likes] table. *)
Definition with_likes (d : PostStore.t) (t : list like) : PostStore.t :=
  PostStore.Db (PostStore.posts d) t (PostStore.comments_table d).

(** A database with another [comments] table. *)
Definition with_comments (d : PostStore.t) (t : list comment) : PostStore.t :=
  PostStore.Db (PostStore.posts d) (PostStore.likes_table d) t.

(** The likes of user [u] on post [k]. *)
Definition likes_of (k u : Z) (d : PostStore.t) : list like :=
  filter (fun l => like_post_id l = k /\ like_user_id l = u)
    (PostStore.likes_table d).

(** [from('likes').select('id').eq('post_id', k).eq('user_id', u).single()] *)
Definition select_like (fault : option string) (k u : Z) (d : PostStore.t)
    : reply like :=
  match fault with
  | Some e => Error e
  | None => single (likes_of k u d)
  end.

(** [from('likes').insert([{ post_id, user_id }]).select().single()]; the
    database picks the [id] of the new row, [new_id]. *)
Definition insert_like (fault : option string) (new_id k u : Z)
    (d : PostStore.t) : PostStore.t * reply (Z * like) :=
  match fault with
  | Some e => (d, Error e)
  | None =>
      (with_likes d (PostStore.likes_table d ++ [Like k u]),
       Data (new_id, Like k u))
  end.

(** [from('likes').delete().eq('post_id', k).eq('user_id', u)] *)
Definition delete_like (fault : option string) (k u : Z) (d : PostStore.t)
    : PostStore.t * option string :=
  match fault with
  | Some e => (d, Some e)
  | None =>
      (with_likes d
         (filter (fun l => ~ (like_post_id l = k /\ like_user_id l = u))
            (PostStore.likes_table d)),
       None)
  end.

(** The comments with id [k]. *)
Definition comments_with_id (k : Z) (d : PostStore.t) : list comment :=
  filter (fun c => comment_id c = k) (PostStore.comments_table d).

(** [from('comments').select(...).eq('id', k).single()] *)
Definition select_comment (fault : option string) (k : Z) (d : PostStore.t)
    : reply comment :=
  match fault with
  | Some e => Error e
  | None => single (comments_with_id k d)
  end.

(** [from('comments').insert([{ post_id, author_id, text }]).select(...)
    .single()]; the database picks the [id] of the new row, [new_id]. *)
Definition insert_comment (fault : option string) (new_id k u : Z)
    (text : JS.str) (d : PostStore.t) : PostStore.t * reply comment :=
  match fault with
  | Some e => (d, Error e)
  | None =>
      (with_comments d (PostStore.comments_table d ++ [Comment new_id k u text]),
       Data (Comment new_id k u text))
  end.

(** A comment with another text. *)
Definition with_text (c : comment) (text : JS.str) : comment :=
  Comment (comment_id c) (comment_post_id c) (comment_author_id c) text.

(** [from('comments').update({ text }).eq('id', k).select(...).single()] *)
Definition update_comment (fault : option string) (k : Z) (text : JS.str)
    (d : PostStore.t) : PostStore.t * reply comment :=
  match fault with
  | Some e => (d, Error e)
  | None =>
      let d' :=
        with_comments d
          (map (fun c => if decide (comment_id c = k) then with_text c text
                         else c)
             (PostStore.comments_table d)) in
      (d', single (comments_with_id k d'))
  end.

(** [from('comments').delete().eq('id', k)] *)
Definition delete_comment_rows (fault : option string) (k : Z)
    (d : PostStore.t) : PostStore.t * option string :=
  match fault with
  | Some e => (d, Some e)
  | None =>
      (with_comments d
         (filter (fun c => comment_id c ≠ k) (PostStore.comments_table d)),
       None)
  end.

(** Injected faults, one per database call of a handler, in call order. *)
Record like_faults := LikeFaults {
  lf_check : option string;
  lf_insert : option string;
  lf_count : option string
}.

Record unlike_faults := UnlikeFaults {
  nf_delete : option string;
  nf_count : option string
}.

Record add_comment_faults := AddCommentFaults {
  af_insert : option string;
  af_count : option string
}.

Record edit_comment_faults := EditCommentFaults {
  cf_fetch : option string;
  cf_update : option string
}.

Record delete_comment_faults := DeleteCommentFaults {
  xf_fetch : option string;
  xf_delete : option string;
  xf_count : option string
}.

(** [POST /api/posts/like]; [req_post_id] is [req.body.post_id]. *)
Definition like_post (userId : Z) (req_post_id : option Z) (new_id : Z)
    (f : like_faults) (d : PostStore.t) : PostStore.t * response :=
  if not_id req_post_id then (d, failure 400 "Post ID is required" None)
  else
    let post_id := default 0 req_post_id in
    match select_like (lf_check f) post_id userId d with
    | Data existingLike => (d, failure 400 "Post already liked" None)
    | Error _ =>
        match insert_like (lf_insert f) new_id post_id userId d with
        | (d1, Error e) => (d1, failure 500 "Failed to like post" (Some e))
        | (d1, Data newLike) =>
            (d1,
             ok 200 "Post liked successfully"
               (LikeData newLike.1 post_id
                  (or_zero (PostStore.count_likes (lf_count f) post_id d1))))
        end
    end.

(** [DELETE /api/posts/unlike] *)
Definition unlike_post (userId : Z) (req_post_id : option Z)
    (f : unlike_faults) (d : PostStore.t) : PostStore.t * response :=
  if not_id req_post_id then (d, failure 400 "Post ID is required" None)
  else
    let post_id := default 0 req_post_id in
    match delete_like (nf_delete f) post_id userId d with
    | (d1, Some e) => (d1, failure 500 "Failed to unlike post" (Some e))
    | (d1, None) =>
        (d1,
         ok 200 "Post unliked successfully"
           (UnlikeData post_id
              (or_zero (PostStore.count_likes (nf_count f) post_id d1))))
    end.

(** [POST /api/comments/add]; the two fields of [req.body]. *)
Definition add_comment (userId : Z) (req_post_id : option Z)
    (req_text : option JS.str) (new_id : Z) (f : add_comment_faults)
    (d : PostStore.t) : PostStore.t * response :=
  if not_id req_post_id || not_str req_text then
    (d, failure 400 "Post ID and comment text are required" None)
  else
    let post_id := default 0 req_post_id in
    let text := default [] req_text in
    if (length (JS.trim text) =? 0)%nat then
      (d, failure 400 "Comment text cannot be empty" None)
    else
      match insert_comment (af_insert f) new_id post_id userId (JS.trim text) d
      with
      | (d1, Error e) => (d1, failure 500 "Failed to add comment" (Some e))
      | (d1, Data newComment) =>
          (d1,
           ok 201 "Comment added successfully"
             (CommentAdded newComment
                (or_zero (PostStore.count_comments (af_count f) post_id d1))))
      end.

(** [PUT /api/comments/:id]; [commentId] is [req.params.id]. *)
Definition edit_comment (userId commentId : Z) (req_text : option JS.str)
    (f : edit_comment_faults) (d : PostStore.t) : PostStore.t * response :=
  if not_str req_text
     || (length (JS.trim (default [] req_text)) =? 0)%nat then
    (d, failure 400 "Comment text cannot be empty" None)
  else
    let text := default [] req_text in
    match select_comment (cf_fetch f) commentId d with
    | Error _ => (d, failure 404 "Comment not found" None)
    | Data c =>
        if negb (comment_author_id c =? userId) then
          (d, failure 403 "You can only edit your own comments" None)
        else
          match update_comment (cf_update f) commentId (JS.trim text) d with
          | (d1, Error e) =>
              (d1, failure 500 "Failed to edit comment" (Some e))
          | (d1, Data updatedComment) =>
              (d1,
               ok 200 "Comment updated successfully"
                 (CommentEdited updatedComment (comment_text c)))
          end
    end.

(** [DELETE /api/comments/:id] *)
Definition delete_comment (userId commentId : Z) (f : delete_comment_faults)
    (d : PostStore.t) : PostStore.t * response :=
  match select_comment (xf_fetch f) commentId d with
  | Error _ => (d, failure 404 "Comment not found" None)
  | Data c =>
      if negb (comment_author_id c =? userId) then
        (d, failure 403 "You can only delete your own comments" None)
      else
        match delete_comment_rows (xf_delete f) commentId d with
        | (d1, Some e) => (d1, failure 500 "Failed to delete comment" (Some e))
        | (d1, None) =>
            (d1,
             ok 200 "Comment deleted successfully"
               (CommentDeleted c
                  (or_zero
                     (PostStore.count_comments (xf_count f)
                        (comment_post_id c) d1))))
        end
  end.

End Social.

(** * Properties *)

(** ** The methods of UndoStack as equations on the map *)

Section UndoStackFacts.

Import UndoStack.

Implicit Types (stacks : UndoStack.t) (userId other : Z) (a : action)
  (arr : list action).

Lemma has_Some stacks userId arr :
  stacks !! userId = Some arr -> has userId stacks = true.
Proof. intros E. unfold has. rewrite E. apply bool_decide_eq_true. eauto. Qed.

Lemma has_None stacks userId :
  stacks !! userId = None -> has userId stacks = false.
Proof.
  intros E. unfold has. rewrite E. apply bool_decide_eq_false.
  intros [x Hx]. discriminate.
Qed.

Lemma size_get stacks userId : size userId stacks = length (get userId stacks).
Proof.
  unfold size, get. destruct (stacks !! userId) as [arr|] eqn:E.
  - by rewrite (has_Some _ _ _ E).
  - by rewrite (has_None _ _ E).
Qed.

Lemma isEmpty_size stacks userId :
  isEmpty userId stacks = (size userId stacks =? 0)%nat.
Proof.
  unfold isEmpty. rewrite size_get. unfold get.
  destruct (stacks !! userId) as [arr|] eqn:E.
  - by rewrite (has_Some _ _ _ E).
  - by rewrite (has_None _ _ E).
Qed.

Lemma push_insert stacks userId a :
  push userId a stacks = <[userId := pushed (get userId stacks) a]> stacks.
Proof.
  unfold push, pushed, get.
  destruct (stacks !! userId) as [arr|] eqn:E.
  - rewrite (has_Some _ _ _ E). simpl. rewrite E, lookup_insert_eq. simpl.
    destruct (10 <? length (arr ++ [a]))%nat; [|done].
    by rewrite insert_insert_eq.
  - rewrite (has_None _ _ E). simpl. rewrite !lookup_insert_eq. simpl.
    rewrite !insert_insert_eq. done.
Qed.

Lemma get_push stacks userId a :
  get userId (push userId a stacks) = pushed (get userId stacks) a.
Proof. rewrite push_insert. unfold get at 1. by rewrite lookup_insert_eq. Qed.

Lemma pop_none stacks userId :
  size userId stacks = 0%nat -> pop userId stacks = (None, stacks).
Proof.
  intros H. unfold pop. fold (isEmpty userId stacks).
  rewrite isEmpty_size, H. done.
Qed.

Lemma pop_snoc stacks userId arr a :
  stacks !! userId = Some (arr ++ [a]) ->
  pop userId stacks = (Some a, <[userId := arr]> stacks).
Proof.
  intros E. unfold pop, get. rewrite (has_Some _ _ _ E), E. simpl.
  rewrite length_app. simpl.
  replace (length arr + 1 =? 0)%nat with false
    by (symmetry; apply Nat.eqb_neq; lia).
  by rewrite last_snoc, removelast_last.
Qed.

Lemma peek_none stacks userId :
  size userId stacks = 0%nat -> peek userId stacks = None.
Proof.
  intros H. unfold peek. fold (isEmpty userId stacks).
  rewrite isEmpty_size, H. done.
Qed.

Lemma peek_snoc stacks userId arr a :
  stacks !! userId = Some (arr ++ [a]) -> peek userId stacks = Some a.
Proof.
  intros E. unfold peek, get. rewrite (has_Some _ _ _ E), E. simpl.
  rewrite length_app. simpl.
  replace (length arr + 1 =? 0)%nat with false
    by (symmetry; apply Nat.eqb_neq; lia).
  replace (length arr + 1 - 1)%nat with (length arr + 0)%nat by lia.
  by rewrite lookup_app_r, Nat.add_comm, Nat.add_sub by lia.
Qed.

(** A non-empty array ends in its most recent entry. *)
Lemma nonempty_snoc stacks userId :
  size userId stacks <> 0%nat ->
  exists arr a, stacks !! userId = Some (arr ++ [a]).
Proof.
  rewrite size_get. unfold get.
  destruct (stacks !! userId) as [l|]; simpl; [|done].
  destruct l as [|x l] using rev_ind; [done|]. eauto.
Qed.

Lemma pushed_last arr a : last (pushed arr a) = Some a.
Proof.
  unfold pushed, shift.
  destruct (10 <? length (arr ++ [a]))%nat eqn:E; [|apply last_snoc].
  apply Nat.ltb_lt in E. rewrite length_app in E. simpl in E.
  destruct arr as [|x arr]; simpl in *; [lia|]. apply last_snoc.
Qed.

Lemma pushed_length arr a :
  (length arr <= 10)%nat ->
  length (pushed arr a) = Nat.min (S (length arr)) 10.
Proof.
  intros H. unfold pushed, shift. rewrite length_app. simpl.
  destruct (10 <? length arr + 1)%nat eqn:E.
  - apply Nat.ltb_lt in E. destruct arr; simpl in *; [lia|].
    rewrite length_app. simpl. lia.
  - apply Nat.ltb_ge in E. rewrite length_app. simpl. lia.
Qed.

(** The kept part of a pushed array: its last ten entries. *)
Lemma pushed_drop arr a :
  (length arr <= 10)%nat ->
  pushed arr a = drop (length (arr ++ [a]) - 10) (arr ++ [a]).
Proof.
  intros H. unfold pushed, shift. rewrite length_app. simpl.
  destruct (10 <? length arr + 1)%nat eqn:E.
  - apply Nat.ltb_lt in E.
    replace (length arr + 1 - 10)%nat with 1%nat by lia.
    by destruct arr.
  - apply Nat.ltb_ge in E.
    by replace (length arr + 1 - 10)%nat with 0%nat by lia.
Qed.

(** Bounded arrays stay bounded. *)
Lemma bounded_empty : bounded empty.
Proof. intros u arr E. unfold empty in E. by rewrite lookup_empty in E. Qed.

Lemma bounded_push stacks userId a :
  bounded stacks -> bounded (push userId a stacks).
Proof.
  intros B u arr. rewrite push_insert, lookup_insert.
  case_decide as Hu; [|apply B]. intros [= <-].
  assert (length (get userId stacks) <= 10)%nat as Hg.
  { unfold get. destruct (stacks !! userId) eqn:E; simpl; [eauto | lia]. }
  rewrite pushed_length by done. lia.
Qed.

Lemma bounded_pop stacks userId :
  bounded stacks -> bounded (pop userId stacks).2.
Proof.
  intros B. destruct (decide (size userId stacks = 0%nat)) as [Hz|Hnz].
  - by rewrite pop_none.
  - destruct (nonempty_snoc _ _ Hnz) as (arr & a & E).
    rewrite (pop_snoc _ _ _ _ E). simpl. intros u l.
    rewrite lookup_insert. case_decide; [|apply B]. intros [= <-].
    specialize (B _ _ E). rewrite length_app in B. simpl in B. lia.
Qed.

Lemma bounded_clear stacks userId :
  bounded stacks -> bounded (clear userId stacks).
Proof.
  intros B. unfold clear. destruct (has userId stacks); [|done].
  intros u l. rewrite lookup_delete. case_decide; [done | apply B].
Qed.

Lemma reachable_bounded stacks : reachable stacks -> bounded stacks.
Proof.
  induction 1 as [|userId c stacks _ IH]; [apply bounded_empty|].
  destruct c; simpl; auto using bounded_push, bounded_pop, bounded_clear.
Qed.

Lemma reachable_push stacks userId a :
  reachable stacks -> reachable (push userId a stacks).
Proof. intros R. apply (reachable_invoke userId (Push a) _ R). Qed.

Lemma reachable_pop stacks userId :
  reachable stacks -> reachable (pop userId stacks).2.
Proof. intros R. apply (reachable_invoke userId Pop _ R). Qed.

Lemma reachable_size stacks userId :
  reachable stacks -> (size userId stacks <= 10)%nat.
Proof.
  intros R. rewrite size_get. unfold get.
  destruct (stacks !! userId) eqn:E; simpl; [|lia].
  by apply (reachable_bounded _ R userId).
Qed.

(** Popping an array dry returns it newest first. *)
Lemma pop_many_all n stacks userId arr :
  stacks !! userId = Some arr ->
  (length arr <= n)%nat ->
  (pop_many n userId stacks).1 = rev arr.
Proof.
  revert stacks arr. induction n as [|n IH]; intros stacks arr E Hn.
  - destruct arr; simpl in *; [done | lia].
  - simpl. destruct arr as [|a arr _] using rev_ind.
    + rewrite pop_none by (rewrite size_get; unfold get; by rewrite E).
      specialize (IH stacks [] E ltac:(simpl; lia)).
      destruct (pop_many n userId stacks). simpl in *. done.
    + rewrite (pop_snoc _ _ _ _ E).
      rewrite length_app in Hn. simpl in Hn.
      specialize (IH (<[userId := arr]> stacks) arr
                    ltac:(apply lookup_insert_eq) ltac:(lia)).
      destruct (pop_many n userId (<[userId := arr]> stacks)). simpl in *.
      rewrite rev_app_distr. simpl. by f_equal.
Qed.

Lemma push_all_snoc stacks userId l a :
  push_all userId (l ++ [a]) stacks = push userId a (push_all userId l stacks).
Proof. unfold push_all. by rewrite fold_left_app. Qed.

(** After pushing [l] onto an array without entries, the array is the last
    ten entries of [l]. *)
Lemma get_push_all stacks userId l :
  size userId stacks = 0%nat ->
  get userId (push_all userId l stacks) = drop (length l - 10) l.
Proof.
  intros Hz. induction l as [|a l IH] using rev_ind.
  - simpl. rewrite size_get in Hz. by destruct (get userId stacks).
  - rewrite push_all_snoc, get_push, IH.
    assert (length (drop (length l - 10) l) <= 10)%nat as Hb
      by (rewrite length_drop; lia).
    rewrite pushed_drop by done.
    rewrite !length_app, length_drop. simpl.
    rewrite <- (drop_app_le l [a]) by lia.
    rewrite drop_drop. f_equal. lia.
Qed.

End UndoStackFacts.

(** ** UndoStack: bound, LIFO discipline and isolation *)

Section UndoStackClaims.

Import UndoStack.

(** C2. Every array of a map built by method calls holds at most 10
    entries.  Pushing at most 10 actions for a user without entries leaves
    [size] equal to the number of pushes.  An 11th push drops the oldest
    entry: [size] is 10, the array is the ten newest actions in order, and
    popping it dry returns exactly those ten, newest first, so the first
    action pushed is not returned by any pop. *)
Theorem undo_stack_bounded_evicts_oldest (stacks : UndoStack.t) (userId : Z) :
  reachable stacks ->
  (size userId stacks <= 10)%nat /\
  (size userId stacks = 0%nat ->
   forall l : list action,
     (length l <= 10)%nat ->
     size userId (push_all userId l stacks) = length l /\
     get userId (push_all userId l stacks) = l) /\
  (size userId stacks = 0%nat ->
   forall (l : list action) (a : action),
     length l = 10%nat ->
     let stacks' := push userId a (push_all userId l stacks) in
     size userId stacks' = 10%nat /\
     get userId stacks' = tail l ++ [a] /\
     forall n, (10 <= n)%nat ->
       (pop_many n userId stacks').1 = a :: rev (tail l) /\
       (NoDup (l ++ [a]) ->
        forall oldest, head l = Some oldest ->
          oldest ∉ (pop_many n userId stacks').1)).
Proof.
  intros R. split; [by apply reachable_size|]. split.
  - intros Hz l Hl.
    assert (get userId (push_all userId l stacks) = l) as Hg.
    { rewrite get_push_all by done.
      by replace (length l - 10)%nat with 0%nat by lia. }
    by rewrite size_get, Hg.
  - intros Hz l a Hl stacks'.
    assert (get userId stacks' = tail l ++ [a]) as Hg.
    { subst stacks'. rewrite <- push_all_snoc, get_push_all by done.
      rewrite length_app, Hl. simpl. by destruct l. }
    assert (length (tail l ++ [a]) = 10%nat) as Hlen.
    { rewrite length_app. destruct l; simpl in *; lia. }
    split; [by rewrite size_get, Hg|]. split; [done|].
    intros n Hn.
    assert (stacks' !! userId = Some (tail l ++ [a])) as E.
    { subst stacks'. rewrite push_insert, lookup_insert_eq. f_equal.
      rewrite <- get_push, <- Hg. done. }
    rewrite (pop_many_all n _ _ _ E) by lia.
    rewrite rev_app_distr. simpl. split; [done|].
    intros Hnd oldest Hhd. destruct l as [|x l']; [done|].
    injection Hhd as ->. simpl in *.
    apply NoDup_cons in Hnd as [Hnotin _].
    intros Hin. apply Hnotin.
    apply elem_of_cons in Hin as [-> | Hin].
    + apply elem_of_app. right. apply list_elem_of_here.
    + apply elem_of_app. left. apply list_elem_of_In.
      apply list_elem_of_In in Hin. by apply in_rev.
Qed.

Lemma undo_stack_bounded_evicts_oldest_witness :
  let l := sample_actions 10 in
  let a := sample_edit 11 in
  size 7 (push_all 7 l empty) = 10%nat /\
  size 7 (push 7 a (push_all 7 l empty)) = 10%nat /\
  get 7 (push 7 a (push_all 7 l empty)) = tail l ++ [a] /\
  (pop_many 12 7 (push 7 a (push_all 7 l empty))).1 = a :: rev (tail l) /\
  sample_edit 1 ∉ (pop_many 12 7 (push 7 a (push_all 7 l empty))).1.
Proof.
  intros l a.
  destruct (undo_stack_bounded_evicts_oldest empty 7 reachable_empty)
    as (_ & Hpush & Hevict).
  assert (size 7 empty = 0%nat) as Hz by reflexivity.
  assert (length l = 10%nat) as Hl by reflexivity.
  destruct (Hevict Hz l a Hl) as (Hs & Hg & Hp).
  split; [apply (Hpush Hz l); rewrite Hl; lia|].
  assert (10 <= 12)%nat as Hn by lia.
  destruct (Hp 12%nat Hn) as [Hpop Hgone].
  split; [exact Hs|]. split; [exact Hg|]. split; [exact Hpop|].
  apply Hgone; [|reflexivity].
  apply (NoDup_fmap_1 action_post_id), (bool_decide_unpack _).
  vm_compute. reflexivity.
Defined.

(** C7. [pop] removes and returns the last (most recently pushed) entry of
    the user's array and [peek] returns it without removing it; both return
    null, leaving the map alone, for a user with no entry or an empty
    array; right after a push, both return the action just pushed. *)
Theorem pop_peek_most_recent (stacks : UndoStack.t) (userId : Z) :
  (forall arr a,
     stacks !! userId = Some (arr ++ [a]) ->
     pop userId stacks = (Some a, <[userId := arr]> stacks) /\
     peek userId stacks = Some a) /\
  (stacks !! userId = None \/ stacks !! userId = Some [] ->
   pop userId stacks = (None, stacks) /\ peek userId stacks = None) /\
  (forall a,
     (pop userId (push userId a stacks)).1 = Some a /\
     peek userId (push userId a stacks) = Some a).
Proof.
  split; [|split].
  - intros arr a E. split; [by apply pop_snoc | by eapply peek_snoc].
  - intros H.
    assert (size userId stacks = 0%nat) as Hz.
    { rewrite size_get. unfold get. by destruct H as [-> | ->]. }
    split; [by apply pop_none | by apply peek_none].
  - intros a.
    assert (exists arr, push userId a stacks !! userId = Some (arr ++ [a]))
      as [arr E].
    { rewrite push_insert, lookup_insert_eq.
      pose proof (pushed_last (get userId stacks) a) as Hl.
      destruct (pushed (get userId stacks) a) as [|x l _] using rev_ind;
        [done|].
      rewrite last_snoc in Hl. injection Hl as ->. eauto. }
    split; [by rewrite (pop_snoc _ _ _ _ E) | by eapply peek_snoc].
Qed.

Lemma pop_peek_most_recent_witness :
  let stacks : UndoStack.t := {[ 7 := [sample_edit 1; sample_edit 2] ]} in
  (pop 7 stacks = (Some (sample_edit 2), <[7 := [sample_edit 1]]> stacks) /\
   peek 7 stacks = Some (sample_edit 2)) /\
  (pop 8 stacks = (None, stacks) /\ peek 8 stacks = None).
Proof.
  intros stacks. split.
  - apply (pop_peek_most_recent stacks 7). reflexivity.
  - apply (pop_peek_most_recent stacks 8). left. reflexivity.
Defined.

(** C10. A method call for one user id leaves the array of every other
    user id as it was, whichever of the six methods is called. *)
Theorem invoke_other_user_unchanged (userId other : Z) (c : call)
    (stacks : UndoStack.t) :
  userId <> other ->
  (invoke userId c stacks).2 !! other = stacks !! other.
Proof.
  intros Hne. destruct c; simpl; try done.
  - rewrite push_insert. by apply lookup_insert_ne.
  - unfold pop. destruct (_ || _); simpl; [done|]. by apply lookup_insert_ne.
  - unfold clear. destruct (has userId stacks); [|done].
    by apply lookup_delete_ne.
Qed.

Lemma invoke_other_user_unchanged_witness :
  let stacks : UndoStack.t :=
    {[ 7 := [sample_edit 1]; 8 := [sample_edit 2] ]} in
  (invoke 7 Clear stacks).2 !! 8 = Some [sample_edit 2] /\
  (invoke 7 Pop stacks).2 !! 8 = Some [sample_edit 2] /\
  (invoke 7 (Push (sample_edit 3)) stacks).2 !! 8 = Some [sample_edit 2].
Proof.
  intros stacks.
  assert (7 <> 8) as Hne by lia.
  rewrite !(invoke_other_user_unchanged 7 8 _ stacks Hne).
  repeat split; reflexivity.
Defined.

End UndoStackClaims.

(** ** The handlers step by step *)

Section HandlerFacts.

Import UndoStack.

Implicit Types (sv : server) (userId post_id : Z) (a : action)
  (arr : list action) (c : PostStore.columns).

Lemma pushed_snoc arr a :
  pushed arr a =
  (if (10 <? length (arr ++ [a]))%nat then shift arr else arr) ++ [a].
Proof.
  unfold pushed, shift.
  destruct (10 <? length (arr ++ [a]))%nat eqn:E; [|done].
  apply Nat.ltb_lt in E. rewrite length_app in E. simpl in E.
  destruct arr; simpl in *; [lia | done].
Qed.

Lemma push_lookup (stacks : UndoStack.t) userId a :
  push userId a stacks !! userId =
  Some ((if (10 <? length (get userId stacks ++ [a]))%nat
         then shift (get userId stacks) else get userId stacks) ++ [a]).
Proof. by rewrite push_insert, lookup_insert_eq, pushed_snoc. Qed.

(** Pushing back what was just popped restores a bounded map. *)
Lemma push_back (stacks : UndoStack.t) userId arr a :
  bounded stacks ->
  stacks !! userId = Some (arr ++ [a]) ->
  push userId a (<[userId := arr]> stacks) = stacks.
Proof.
  intros B E. rewrite push_insert. unfold get. rewrite lookup_insert_eq. simpl.
  rewrite insert_insert_eq. unfold pushed.
  specialize (B _ _ E).
  replace (10 <? length (arr ++ [a]))%nat with false
    by (symmetry; apply Nat.ltb_ge; lia).
  by apply insert_id.
Qed.

Lemma isEmpty_snoc (stacks : UndoStack.t) userId arr a :
  stacks !! userId = Some (arr ++ [a]) -> isEmpty userId stacks = false.
Proof.
  intros E. rewrite isEmpty_size, size_get. unfold get. rewrite E. simpl.
  rewrite length_app. simpl. apply Nat.eqb_neq. lia.
Qed.

Lemma peek_Some_snoc (stacks : UndoStack.t) userId a :
  peek userId stacks = Some a ->
  exists arr, stacks !! userId = Some (arr ++ [a]).
Proof.
  intros P. destruct (decide (size userId stacks = 0%nat)) as [Hz|Hnz].
  - by rewrite peek_none in P.
  - destruct (nonempty_snoc _ _ Hnz) as (arr & a' & E).
    rewrite (peek_snoc _ _ _ _ E) in P. injection P as ->. eauto.
Qed.

(** [undo] on an array that ends in an edit entry. *)
Lemma undo_edit_top userId f sv arr post_id original_content new_content ts :
  undoStack sv !! userId =
    Some (arr ++ [Edit post_id original_content new_content ts]) ->
  undo userId f sv =
  match PostStore.update_single (uf_restore f) post_id userId
          original_content (db sv) with
  | (d, Error e) =>
      (Server (push userId (Edit post_id original_content new_content ts)
                 (<[userId := arr]> (undoStack sv))) d,
       failure 500 "Failed to undo edit" (Some e))
  | (d, Data restoredPost) =>
      (Server (<[userId := arr]> (undoStack sv)) d,
       ok "Edit undone successfully"
         (UndoData "UNDO_EDIT" (view f restoredPost d) (length arr)))
  end.
Proof.
  intros E. unfold undo.
  rewrite (isEmpty_snoc _ _ _ _ E), (pop_snoc _ _ _ _ E).
  rewrite size_get. unfold get. by rewrite lookup_insert_eq.
Qed.

(** [undo] on an array that ends in a delete entry. *)
Lemma undo_delete_top userId f sv arr p ts :
  undoStack sv !! userId = Some (arr ++ [Delete p ts]) ->
  undo userId f sv =
  match PostStore.insert_single (uf_restore f) p (db sv) with
  | (d, Error e) =>
      (Server (push userId (Delete p ts) (<[userId := arr]> (undoStack sv))) d,
       failure 500 "Failed to undo delete" (Some e))
  | (d, Data restoredPost) =>
      (Server (<[userId := arr]> (undoStack sv)) d,
       ok "Delete undone successfully"
         (UndoData "UNDO_DELETE" (view f restoredPost d) (length arr)))
  end.
Proof.
  intros E. unfold undo.
  rewrite (isEmpty_snoc _ _ _ _ E), (pop_snoc _ _ _ _ E).
  rewrite size_get. unfold get. rewrite lookup_insert_eq.
  by destruct p.
Qed.

(** [undo] on an array that ends in an entry with another tag. *)
Lemma undo_other_top userId f sv arr ty ts :
  undoStack sv !! userId = Some (arr ++ [Other ty ts]) ->
  undo userId f sv =
  (Server (<[userId := arr]> (undoStack sv)) (db sv),
   failure 400 "Unknown action type" None).
Proof.
  intros E. unfold undo.
  by rewrite (isEmpty_snoc _ _ _ _ E), (pop_snoc _ _ _ _ E).
Qed.

Lemma trim_nonempty (s : JS.str) :
  length (JS.trim s) <> 0%nat -> length s <> 0%nat.
Proof. by destruct s. Qed.

(** A valid edit of one's own post, before the update is attempted. *)
Lemma edit_owned userId post_id s now f sv c :
  post_id <> 0 ->
  length (JS.trim s) <> 0%nat ->
  PostStore.posts (db sv) !! post_id = Some c ->
  PostStore.col_author_id c = userId ->
  ef_fetch f = None ->
  edit userId (EditBody (Some post_id) (Some s)) now f sv =
  let stacks :=
    push userId (Edit post_id (PostStore.col_content c) (JS.trim s) now)
      (undoStack sv) in
  match PostStore.update_single (ef_update f) post_id userId (JS.trim s)
          (db sv) with
  | (d, Error e) =>
      (Server stacks d, failure 500 "Failed to update post" (Some e))
  | (d, Data updatedPost) =>
      (Server stacks d,
       ok "Post updated successfully" (EditData updatedPost true))
  end.
Proof.
  intros Hid Ht Hc Ha Hf. unfold edit. simpl.
  pose proof (trim_nonempty s Ht) as Hs.
  apply Z.eqb_neq in Hid. apply Nat.eqb_neq in Ht, Hs.
  rewrite Hid, Hs, Ht. simpl.
  unfold PostStore.select_single. rewrite Hf, Hc.
  apply Z.eqb_eq in Ha. rewrite Ha. done.
Qed.

(** A delete of one's own post, before the deletions are attempted. *)
Lemma delete_owned userId post_id now f sv c :
  post_id <> 0 ->
  PostStore.posts (db sv) !! post_id = Some c ->
  PostStore.col_author_id c = userId ->
  df_fetch f = None ->
  delete_ userId (DeleteBody (Some post_id)) now f sv =
  let stacks :=
    push userId (Delete (PostStore.row post_id c) now) (undoStack sv) in
  let d2 :=
    (PostStore.delete_comments (df_comments f) post_id
       (PostStore.delete_likes (df_likes f) post_id (db sv)).1).1 in
  match PostStore.delete_post (df_post f) post_id userId d2 with
  | (d3, Some e) =>
      (Server stacks d3, failure 500 "Failed to delete post" (Some e))
  | (d3, None) =>
      (Server stacks d3,
       ok "Post deleted successfully" (DeleteData post_id true))
  end.
Proof.
  intros Hid Hc Ha Hf. unfold delete_. simpl.
  apply Z.eqb_neq in Hid. rewrite Hid.
  unfold PostStore.select_single. rewrite Hf, Hc.
  apply Z.eqb_eq in Ha. rewrite Ha. simpl.
  destruct (PostStore.delete_likes _ _ _) as [d1 e1]. simpl.
  destruct (PostStore.delete_comments _ _ _) as [d2 e2]. simpl.
  done.
Qed.

(** The cascade on likes and comments leaves the [posts] table alone. *)
Lemma cascade_posts fl fc post_id (d : PostStore.t) :
  PostStore.posts
    (PostStore.delete_comments fc post_id
       (PostStore.delete_likes fl post_id d).1).1 = PostStore.posts d.
Proof. by destruct fl, fc. Qed.

(** An accepted update of one's own post. *)
Lemma update_owned post_id userId c s (d : PostStore.t) :
  PostStore.posts d !! post_id = Some c ->
  PostStore.col_author_id c = userId ->
  PostStore.update_single None post_id userId s d =
  (PostStore.Db
     (<[post_id := PostStore.Columns userId s (PostStore.col_likes c)
                     (PostStore.col_created_at c)]> (PostStore.posts d))
     (PostStore.likes_table d) (PostStore.comments_table d),
   Data (Post post_id userId s (PostStore.col_likes c)
           (PostStore.col_created_at c))).
Proof.
  intros Hc Ha. unfold PostStore.update_single. rewrite Hc.
  pose proof Ha as Hb. apply Z.eqb_eq in Hb. rewrite Hb, Ha. done.
Qed.

(** An edit that answers 200 passed the validation and met no error. *)
Lemma edit_accepted userId post_id s now f sv :
  status (edit userId (EditBody (Some post_id) (Some s)) now f sv).2 = 200 ->
  post_id <> 0 /\ length (JS.trim s) <> 0%nat /\
  ef_fetch f = None /\ ef_update f = None.
Proof.
  unfold edit. simpl.
  destruct (Z.eqb_spec post_id 0) as [Hz|Hnz]; simpl; [discriminate|].
  destruct (length s =? 0)%nat; simpl; [discriminate|].
  destruct (Nat.eqb_spec (length (JS.trim s)) 0) as [Ht|Ht]; [discriminate|].
  unfold PostStore.select_single.
  destruct (ef_fetch f); [discriminate|].
  destruct (PostStore.posts (db sv) !! post_id) as [c|] eqn:Hc; [|discriminate].
  destruct (PostStore.col_author_id c =? userId) eqn:Ha; [|discriminate].
  unfold PostStore.update_single.
  destruct (ef_update f); [discriminate|]. done.
Qed.

(** A delete that answers 200 passed the validation; its lookup and its
    deletion of the post met no error. *)
Lemma delete_accepted userId post_id now f sv :
  status (delete_ userId (DeleteBody (Some post_id)) now f sv).2 = 200 ->
  post_id <> 0 /\ df_fetch f = None /\ df_post f = None.
Proof.
  unfold delete_. simpl.
  destruct (Z.eqb_spec post_id 0) as [Hz|Hnz]; simpl; [discriminate|].
  unfold PostStore.select_single.
  destruct (df_fetch f); [discriminate|].
  destruct (PostStore.posts (db sv) !! post_id) as [c|] eqn:Hc; [|discriminate].
  destruct (PostStore.col_author_id c =? userId) eqn:Ha; [|discriminate].
  destruct (PostStore.delete_likes _ _ _) as [d1 e1].
  destruct (PostStore.delete_comments _ _ _) as [d2 e2].
  unfold PostStore.delete_post.
  destruct (df_post f); [discriminate|]. done.
Qed.

(** The handlers reach the undo arrays through the methods only, so the map
    of a running server stays among the reachable ones. *)
Lemma edit_reachable userId req now f sv :
  reachable (undoStack sv) -> reachable (undoStack (edit userId req now f sv).1).
Proof.
  intros R. unfold edit.
  destruct (_ || _); [done|].
  destruct (_ =? _)%nat; [done|].
  destruct (PostStore.select_single _ _ _ _); [|done].
  destruct (PostStore.update_single _ _ _ _ _) as [d [p|e]]; simpl;
    by apply reachable_push.
Qed.

Lemma delete_reachable userId req now f sv :
  reachable (undoStack sv) ->
  reachable (undoStack (delete_ userId req now f sv).1).
Proof.
  intros R. unfold delete_.
  destruct (not_id _); [done|].
  destruct (PostStore.select_single _ _ _ _); [|done].
  destruct (PostStore.delete_likes _ _ _) as [d1 e1].
  destruct (PostStore.delete_comments _ _ _) as [d2 e2].
  destruct (PostStore.delete_post _ _ _ _) as [d3 [e|]]; simpl;
    by apply reachable_push.
Qed.

Lemma undo_reachable userId f sv :
  reachable (undoStack sv) -> reachable (undoStack (undo userId f sv).1).
Proof.
  intros R. unfold undo.
  destruct (isEmpty _ _); [done|].
  pose proof (reachable_pop _ userId R) as Rp.
  destruct (pop userId (undoStack sv)) as [popped stacks]. simpl in Rp.
  destruct popped as [[post_id orig new ts | p ts | ty ts]|]; [| |done|done].
  - destruct (PostStore.update_single _ _ _ _ _) as [d [p|e]]; simpl;
      [done | by apply reachable_push].
  - destruct (PostStore.insert_single _ _ _) as [d [q|e]]; simpl;
      [done | by apply reachable_push].
Qed.

End HandlerFacts.

(** ** The undo operation and its round trips *)

Section HandlerClaims.

Import UndoStack.

(** C1. When the write of [undo] (the update for an edit entry, the insert
    for a delete entry) answers with an error, the handler answers 500 with
    that error and the map of undo arrays is the one from before the
    request: the popped action is back on top of the user's array. *)
Theorem undo_store_failure_restores_stack (userId : Z) (f : undo_faults)
    (sv : server) (a : action) (d : PostStore.t) (e : string) :
  reachable (undoStack sv) ->
  peek userId (undoStack sv) = Some a ->
  restore_write userId f a (db sv) = Some (d, Error e) ->
  undoStack (undo userId f sv).1 = undoStack sv /\
  get userId (undoStack (undo userId f sv).1) = get userId (undoStack sv) /\
  peek userId (undoStack (undo userId f sv).1) = Some a /\
  status (undo userId f sv).2 = 500 /\
  success (undo userId f sv).2 = false /\
  error (undo userId f sv).2 = Some e.
Proof.
  intros R P W.
  destruct (peek_Some_snoc _ _ _ P) as [arr E].
  pose proof (push_back _ _ _ _ (reachable_bounded _ R) E) as Hback.
  assert (undoStack (undo userId f sv).1 = undoStack sv /\
          status (undo userId f sv).2 = 500 /\
          success (undo userId f sv).2 = false /\
          error (undo userId f sv).2 = Some e) as (Hs & H1 & H2 & H3).
  { destruct a as [post_id original_content new_content ts | p ts | ty ts];
      simpl in W; [| |done]; injection W as W.
    - rewrite (undo_edit_top _ _ _ _ _ _ _ _ E), W. simpl. by rewrite Hback.
    - rewrite (undo_delete_top _ _ _ _ _ _ E), W. simpl. by rewrite Hback. }
  rewrite Hs. done.
Qed.

Lemma undo_store_failure_restores_stack_witness :
  let a := Delete (PostStore.row 1 (PostStore.Columns 7 (JS.lit "A") 3 "t")) "t'" in
  let sv := Server (push 7 a (push 7 (sample_edit 1) empty)) sample_db in
  undoStack (undo 7 no_undo_faults sv).1 = undoStack sv /\
  get 7 (undoStack (undo 7 no_undo_faults sv).1) = [sample_edit 1; a] /\
  status (undo 7 no_undo_faults sv).2 = 500.
Proof.
  intros a sv.
  assert (reachable (undoStack sv)) as R
    by (apply reachable_push, reachable_push, reachable_empty).
  destruct (undo_store_failure_restores_stack 7 no_undo_faults sv a
              sample_db PostStore.duplicate_key R eq_refl eq_refl)
    as (Hs & Hg & _ & Hst & _).
  split; [exact Hs|]. split; [rewrite Hg; reflexivity | exact Hst].
Defined.

(** C5. For a user with no entry in the map or with an empty array, [undo]
    answers 400 "No actions to undo" and leaves the undo arrays and the
    database exactly as they were. *)
Theorem undo_empty_stack_rejected (userId : Z) (f : undo_faults) (sv : server) :
  undoStack sv !! userId = None \/ undoStack sv !! userId = Some [] ->
  undo userId f sv = (sv, failure 400 "No actions to undo" None).
Proof.
  intros H. unfold undo. rewrite isEmpty_size, size_get. unfold get.
  by destruct H as [-> | ->].
Qed.

Lemma undo_empty_stack_rejected_witness :
  undo 7 no_undo_faults fresh_server =
    (fresh_server, failure 400 "No actions to undo" None) /\
  undo 7 no_undo_faults (Server {[ 7 := [] ]} sample_db) =
    (Server {[ 7 := [] ]} sample_db, failure 400 "No actions to undo" None).
Proof.
  split.
  - apply undo_empty_stack_rejected. left. reflexivity.
  - apply undo_empty_stack_rejected. right. reflexivity.
Defined.

(** C9. When the entry on top of the user's array carries a type other than
    'EDIT' and 'DELETE', [undo] answers 400 "Unknown action type" and does
    not push the popped entry back: the user's array is the old one without
    its last entry, one shorter, and the database is untouched. *)
Theorem undo_unknown_type_drops_action (userId : Z) (f : undo_faults)
    (sv : server) (a : action) :
  peek userId (undoStack sv) = Some a ->
  action_type a <> "EDIT" ->
  action_type a <> "DELETE" ->
  (undo userId f sv).2 = failure 400 "Unknown action type" None /\
  undoStack (undo userId f sv).1 = (pop userId (undoStack sv)).2 /\
  get userId (undoStack sv) =
    get userId (undoStack (undo userId f sv).1) ++ [a] /\
  S (size userId (undoStack (undo userId f sv).1)) =
    size userId (undoStack sv) /\
  db (undo userId f sv).1 = db sv.
Proof.
  intros P He Hd.
  destruct (peek_Some_snoc _ _ _ P) as [arr E].
  destruct a as [? ? ? ? | ? ? | ty ts]; [done | done |].
  rewrite (undo_other_top _ _ _ _ _ _ E), (pop_snoc _ _ _ _ E). simpl.
  rewrite !size_get. unfold get. rewrite E, lookup_insert_eq. simpl.
  rewrite length_app. simpl. repeat split; try done. lia.
Qed.

Lemma undo_unknown_type_drops_action_witness :
  let sv := Server {[ 7 := [sample_edit 1; Other "LIKE" "t"] ]} sample_db in
  (undo 7 no_undo_faults sv).2 = failure 400 "Unknown action type" None /\
  get 7 (undoStack (undo 7 no_undo_faults sv).1) = [sample_edit 1].
Proof.
  intros sv.
  assert ("LIKE" <> "EDIT") as He by discriminate.
  assert ("LIKE" <> "DELETE") as Hd by discriminate.
  destruct (undo_unknown_type_drops_action 7 no_undo_faults sv
              (Other "LIKE" "t") eq_refl He Hd) as (Hr & Hs & _).
  split; [exact Hr|]. rewrite Hs. reflexivity.
Defined.

End HandlerClaims.

(** ** Edit, delete and their undo *)

Section RoundTrips.

Import UndoStack.

Implicit Types (sv : server) (userId post_id : Z) (c : PostStore.columns).

(** C3. When a user deletes a post they own (the delete answers 200) and
    then undoes, the re-insert meeting no injected fault, the undo answers
    200 and puts back a row under the original id whose owner, content, like
    count and creation time are the ones snapshotted before the delete: the
    [posts] table is the one from before the delete, and the response shows
    the original id, content and creation time. *)
Theorem delete_then_undo_restores_post userId post_id c now fd fu sv :
  PostStore.posts (db sv) !! post_id = Some c ->
  PostStore.col_author_id c = userId ->
  let r1 := delete_ userId (DeleteBody (Some post_id)) now fd sv in
  let r2 := undo userId fu r1.1 in
  status r1.2 = 200 ->
  uf_restore fu = None ->
  PostStore.posts (db r1.1) !! post_id = None /\
  peek userId (undoStack r1.1) = Some (Delete (PostStore.row post_id c) now) /\
  status r2.2 = 200 /\
  PostStore.posts (db r2.1) !! post_id = Some c /\
  PostStore.posts (db r2.1) = PostStore.posts (db sv) /\
  (pv_post_id <$> restored_of r2.2) = Some post_id /\
  (pv_content <$> restored_of r2.2) = Some (PostStore.col_content c) /\
  (pv_timestamp <$> restored_of r2.2) = Some (PostStore.col_created_at c).
Proof.
  intros Hc Ha r1 r2 Hok Hu. subst r1 r2.
  destruct (delete_accepted _ _ _ _ _ Hok) as (Hid & Hf & Hp). clear Hok.
  rewrite (delete_owned _ _ _ _ _ _ Hid Hc Ha Hf). simpl.
  set (d2 := (PostStore.delete_comments _ _ _).1).
  assert (PostStore.posts d2 = PostStore.posts (db sv)) as Hd2
    by apply cascade_posts.
  unfold PostStore.delete_post. rewrite Hp, Hd2, Hc.
  apply Z.eqb_eq in Ha. rewrite Ha. simpl.
  rewrite lookup_delete_eq.
  pose proof (push_lookup (undoStack sv) userId
                (Delete (PostStore.row post_id c) now)) as E.
  rewrite (peek_snoc _ _ _ _ E).
  erewrite undo_delete_top by (simpl; exact E). simpl.
  unfold PostStore.insert_single. rewrite Hu. simpl.
  rewrite lookup_delete_eq. simpl. rewrite lookup_insert_eq.
  rewrite insert_delete_eq.
  replace (PostStore.columns_of (PostStore.row post_id c)) with c
    by (by destruct c).
  rewrite (insert_id _ _ _ Hc). done.
Qed.

Lemma delete_then_undo_restores_post_witness :
  let r1 := delete_ 7 (DeleteBody (Some 1)) sample_now no_delete_faults
              fresh_server in
  let r2 := undo 7 no_undo_faults r1.1 in
  PostStore.posts (db r1.1) !! 1 = None /\
  PostStore.posts (db r2.1) !! 1 =
    Some (PostStore.Columns 7 (JS.lit "A") 3 "2024-12-31T10:00:00.000Z") /\
  (pv_post_id <$> restored_of r2.2) = Some 1.
Proof.
  destruct (delete_then_undo_restores_post 7 1
              (PostStore.Columns 7 (JS.lit "A") 3 "2024-12-31T10:00:00.000Z")
              sample_now no_delete_faults no_undo_faults fresh_server
              eq_refl eq_refl eq_refl eq_refl)
    as (H1 & _ & _ & H2 & _ & H3 & _).
  exact (conj H1 (conj H2 H3)).
Defined.

(** C4. When a user edits a post they own (the edit answers 200), the
    handler has recorded an edit entry whose original content is the content
    the post had before the update and whose new content is the trimmed
    request content, and the post holds the new content; an undo whose write
    meets no injected fault then answers 200 and writes the original content
    back: the row, and the whole [posts] table, is the one from before the
    edit. *)
Theorem edit_then_undo_restores_content userId post_id c s now fe fu sv :
  PostStore.posts (db sv) !! post_id = Some c ->
  PostStore.col_author_id c = userId ->
  let r1 := edit userId (EditBody (Some post_id) (Some s)) now fe sv in
  let r2 := undo userId fu r1.1 in
  status r1.2 = 200 ->
  uf_restore fu = None ->
  peek userId (undoStack r1.1) =
    Some (Edit post_id (PostStore.col_content c) (JS.trim s) now) /\
  (PostStore.col_content <$> PostStore.posts (db r1.1) !! post_id) =
    Some (JS.trim s) /\
  status r2.2 = 200 /\
  PostStore.posts (db r2.1) !! post_id = Some c /\
  PostStore.posts (db r2.1) = PostStore.posts (db sv) /\
  (pv_content <$> restored_of r2.2) = Some (PostStore.col_content c).
Proof.
  intros Hc Ha r1 r2 Hok Hu. subst r1 r2.
  destruct (edit_accepted _ _ _ _ _ _ Hok) as (Hid & Ht & Hf & Hup). clear Hok.
  rewrite (edit_owned _ _ _ _ _ _ _ Hid Ht Hc Ha Hf).
  rewrite Hup, (update_owned _ _ _ _ _ Hc Ha). simpl.
  rewrite lookup_insert_eq. simpl.
  pose proof (push_lookup (undoStack sv) userId
                (Edit post_id (PostStore.col_content c) (JS.trim s) now)) as E.
  rewrite (peek_snoc _ _ _ _ E).
  erewrite undo_edit_top by (simpl; exact E). simpl.
  rewrite Hu.
  erewrite update_owned; [|simpl; apply lookup_insert_eq|reflexivity].
  simpl. rewrite lookup_insert_eq, insert_insert_eq.
  replace (PostStore.Columns userId (PostStore.col_content c)
             (PostStore.col_likes c) (PostStore.col_created_at c)) with c
    by (destruct c; simpl in *; by subst).
  rewrite (insert_id _ _ _ Hc). done.
Qed.

Lemma edit_then_undo_restores_content_witness :
  let r1 := edit 7 (EditBody (Some 1) (Some (JS.lit "B"))) sample_now
              no_edit_faults fresh_server in
  let r2 := undo 7 no_undo_faults r1.1 in
  (PostStore.col_content <$> PostStore.posts (db r1.1) !! 1) =
    Some (JS.lit "B") /\
  (PostStore.col_content <$> PostStore.posts (db r2.1) !! 1) =
    Some (JS.lit "A").
Proof.
  destruct (edit_then_undo_restores_content 7 1
              (PostStore.Columns 7 (JS.lit "A") 3 "2024-12-31T10:00:00.000Z")
              (JS.lit "B") sample_now no_edit_faults no_undo_faults fresh_server
              eq_refl eq_refl eq_refl eq_refl)
    as (_ & H1 & _ & H2 & _).
  split; [exact H1 | rewrite H2; reflexivity].
Defined.

(** C6. When the target post does not exist or belongs to another user,
    [edit] and [delete] change neither the undo arrays nor the database and
    answer with a failure; for a request that passes the input validation
    the failure is 404 with the one message that covers both cases. *)
Theorem edit_delete_foreign_post_rejected userId post_id sv :
  (forall c, PostStore.posts (db sv) !! post_id = Some c ->
             PostStore.col_author_id c <> userId) ->
  (forall s now f,
     let r := edit userId (EditBody (Some post_id) s) now f sv in
     r.1 = sv /\ success r.2 = false /\
     (post_id <> 0 ->
      (exists s', s = Some s' /\ length (JS.trim s') <> 0%nat) ->
      r.2 = failure 404
              "Post not found or you do not have permission to edit it" None))
  /\
  (forall now f,
     let r := delete_ userId (DeleteBody (Some post_id)) now f sv in
     r.1 = sv /\ success r.2 = false /\
     (post_id <> 0 ->
      r.2 = failure 404
              "Post not found or you do not have permission to delete it" None)).
Proof.
  intros Hforeign.
  assert (forall fault, exists e,
            PostStore.select_single fault post_id userId (db sv) = Error e)
    as Hsel.
  { intros fault. unfold PostStore.select_single.
    destruct fault as [e|]; [eauto|].
    destruct (PostStore.posts (db sv) !! post_id) as [c|] eqn:E; [|eauto].
    specialize (Hforeign c eq_refl). apply Z.eqb_neq in Hforeign.
    rewrite Hforeign. eauto. }
  split.
  - intros s now f r. subst r. unfold edit. simpl.
    destruct (Z.eqb_spec post_id 0) as [Hz|Hnz]; simpl.
    { split; [done|]. split; [done|]. intros Hnz. done. }
    destruct (not_str s) eqn:Hs; simpl.
    { split; [done|]. split; [done|]. intros _ (s' & -> & Ht).
      apply trim_nonempty in Ht. simpl in Hs.
      apply Nat.eqb_eq in Hs. done. }
    destruct (length (JS.trim (default [] s)) =? 0)%nat eqn:Ht; simpl.
    { split; [done|]. split; [done|]. intros _ (s' & -> & Ht').
      apply Nat.eqb_eq in Ht. done. }
    destruct (Hsel (ef_fetch f)) as [e ->]. done.
  - intros now f r. subst r. unfold delete_. simpl.
    destruct (Z.eqb_spec post_id 0) as [Hz|Hnz]; simpl.
    { split; [done|]. split; [done|]. intros Hnz. done. }
    destruct (Hsel (df_fetch f)) as [e ->]. done.
Qed.

Lemma edit_delete_foreign_post_rejected_witness :
  (edit 7 (EditBody (Some 2) (Some (JS.lit "mine now"))) sample_now
     no_edit_faults fresh_server =
   (fresh_server,
    failure 404 "Post not found or you do not have permission to edit it" None))
  /\
  (delete_ 7 (DeleteBody (Some 5)) sample_now no_delete_faults fresh_server =
   (fresh_server,
    failure 404 "Post not found or you do not have permission to delete it"
      None)).
Proof.
  assert (forall k : Z, k = 2 \/ k = 5 ->
            forall c, PostStore.posts (db fresh_server) !! k = Some c ->
                      PostStore.col_author_id c <> 7) as Hforeign.
  { intros k [-> | ->] c; vm_compute; intros [= <-]; discriminate. }
  split.
  - destruct (edit_delete_foreign_post_rejected 7 2 fresh_server
                (Hforeign 2 (or_introl eq_refl))) as [He _].
    destruct (He (Some (JS.lit "mine now")) sample_now no_edit_faults)
      as (H1 & _ & H2).
    apply injective_projections; [exact H1|].
    apply H2; [lia|]. eexists. split; [reflexivity | simpl; lia].
  - destruct (edit_delete_foreign_post_rejected 7 5 fresh_server
                (Hforeign 5 (or_intror eq_refl))) as [_ Hd].
    destruct (Hd sample_now no_delete_faults) as (H1 & _ & H2).
    apply injective_projections; [exact H1 | apply H2; lia].
Defined.

End RoundTrips.

(** ** The remaining-undos count *)

Section RemainingUndos.

Import UndoStack.

(** C8, as stated, fails on a full array: with ten recorded actions the
    edit's push evicts the oldest, the undo pops the edit, and the response
    reports 9 remaining undos, not the 10 held before the edit. *)
Lemma remaining_undos_full_stack_counterexample :
  let r1 := edit 7 (EditBody (Some 1) (Some (JS.lit "B"))) sample_now
              no_edit_faults full_server in
  let r2 := undo 7 no_undo_faults r1.1 in
  reachable (undoStack full_server) /\
  size 7 (undoStack full_server) = 10%nat /\
  status r1.2 = 200 /\
  status r2.2 = 200 /\
  remaining_undos_of r2.2 = Some 9%nat /\
  remaining_undos_of r2.2 <> Some (size 7 (undoStack full_server)).
Proof.
  split.
  { unfold full_server, push_all. simpl.
    repeat apply reachable_push. apply reachable_empty. }
  vm_compute. repeat split. discriminate.
Qed.

(** C8, amended. After an edit of one's own post that answers 200, followed
    by an undo that answers 200, [remaining_undos] is the size the user's
    array had before the edit's push when that size was below 10, and 9 when
    the array already held 10 actions. *)
Theorem remaining_undos_after_edit_undo (userId post_id : Z)
    (c : PostStore.columns) (s : JS.str) (now : string) (fe : edit_faults)
    (fu : undo_faults) (sv : server) :
  reachable (undoStack sv) ->
  PostStore.posts (db sv) !! post_id = Some c ->
  PostStore.col_author_id c = userId ->
  let r1 := edit userId (EditBody (Some post_id) (Some s)) now fe sv in
  let r2 := undo userId fu r1.1 in
  status r1.2 = 200 ->
  status r2.2 = 200 ->
  remaining_undos_of r2.2 = Some (Nat.min (size userId (undoStack sv)) 9) /\
  ((size userId (undoStack sv) < 10)%nat ->
   remaining_undos_of r2.2 = Some (size userId (undoStack sv))) /\
  (size userId (undoStack sv) = 10%nat ->
   remaining_undos_of r2.2 = Some 9%nat).
Proof.
  intros R Hc Ha r1 r2 Hok. subst r1 r2.
  destruct (edit_accepted _ _ _ _ _ _ Hok) as (Hid & Ht & Hf & Hup). clear Hok.
  pose proof (reachable_size _ userId R) as Hb.
  rewrite size_get in *.
  rewrite (edit_owned _ _ _ _ _ _ _ Hid Ht Hc Ha Hf).
  rewrite Hup, (update_owned _ _ _ _ _ Hc Ha). simpl.
  pose proof (push_lookup (undoStack sv) userId
                (Edit post_id (PostStore.col_content c) (JS.trim s) now)) as E.
  erewrite undo_edit_top by (simpl; exact E). simpl.
  destruct (uf_restore fu) as [e|]; [discriminate|]. intros _.
  erewrite update_owned; [|simpl; apply lookup_insert_eq|reflexivity].
  unfold remaining_undos_of. simpl.
  set (g := get userId (undoStack sv)) in *.
  assert (length (if (10 <? length (g ++ [Edit post_id (PostStore.col_content c)
                                             (JS.trim s) now]))%nat
                  then shift g else g) = Nat.min (length g) 9) as ->.
  { rewrite length_app. simpl.
    destruct (10 <? length g + 1)%nat eqn:El.
    - apply Nat.ltb_lt in El. unfold shift. destruct g; simpl in *; lia.
    - apply Nat.ltb_ge in El. lia. }
  split; [done|]. split; intros H; f_equal; lia.
Qed.

Lemma remaining_undos_after_edit_undo_witness :
  let r1 := edit 7 (EditBody (Some 1) (Some (JS.lit "B"))) sample_now
              no_edit_faults full_server in
  let r2 := undo 7 no_undo_faults r1.1 in
  remaining_undos_of r2.2 = Some 9%nat.
Proof.
  assert (reachable (undoStack full_server)) as R.
  { unfold full_server, push_all. simpl.
    repeat apply reachable_push. apply reachable_empty. }
  destruct (remaining_undos_after_edit_undo 7 1
              (PostStore.Columns 7 (JS.lit "A") 3 "2024-12-31T10:00:00.000Z")
              (JS.lit "B") sample_now no_edit_faults no_undo_faults full_server
              R eq_refl eq_refl eq_refl eq_refl)
    as (_ & _ & H10).
  apply H10. reflexivity.
Defined.

End RemainingUndos.

(** ** More on the methods of UndoStack *)

Section UndoStackMore.

Import UndoStack.

Implicit Types (stacks : UndoStack.t) (userId : Z) (a : action)
  (arr : list action).

Lemma size_lookup stacks userId arr :
  stacks !! userId = Some arr -> size userId stacks = length arr.
Proof. intros E. rewrite size_get. unfold get. by rewrite E. Qed.

Lemma pop_many_drained n stacks userId arr :
  stacks !! userId = Some arr ->
  (length arr <= n)%nat ->
  (pop_many n userId stacks).2 = <[userId := []]> stacks.
Proof.
  revert stacks arr. induction n as [|n IH]; intros stacks arr E Hn.
  - destruct arr; simpl in *; [|lia]. by rewrite insert_id.
  - simpl. destruct arr as [|a arr _] using rev_ind.
    + rewrite pop_none by (by rewrite (size_lookup _ _ _ E)).
      specialize (IH stacks [] E ltac:(simpl; lia)).
      destruct (pop_many n userId stacks). simpl in *. done.
    + rewrite (pop_snoc _ _ _ _ E).
      rewrite length_app in Hn. simpl in Hn.
      specialize (IH (<[userId := arr]> stacks) arr
                    ltac:(apply lookup_insert_eq) ltac:(lia)).
      destruct (pop_many n userId (<[userId := arr]> stacks)). simpl in *.
      by rewrite IH, insert_insert_eq.
Qed.

(** X1. On a map built by method calls, pushing back the action a [pop]
    has just returned restores the map exactly. *)
Theorem pop_then_push_restores stacks userId a :
  reachable stacks ->
  (pop userId stacks).1 = Some a ->
  push userId a (pop userId stacks).2 = stacks.
Proof.
  intros R P.
  destruct (decide (size userId stacks = 0%nat)) as [Hz|Hnz].
  { by rewrite pop_none in P. }
  destruct (nonempty_snoc _ _ Hnz) as (arr & a' & E).
  rewrite (pop_snoc _ _ _ _ E) in *. simpl in *. injection P as ->.
  by apply push_back; [apply reachable_bounded|].
Qed.

Lemma pop_then_push_restores_witness :
  let stacks := push_all 7 (sample_actions 10) empty in
  push 7 (sample_edit 10) (pop 7 stacks).2 = stacks.
Proof.
  intros stacks. apply pop_then_push_restores; [|reflexivity].
  unfold stacks, push_all. simpl.
  repeat apply reachable_push. apply reachable_empty.
Defined.

(** X2. The four ways to see that a user has nothing to undo agree:
    [isEmpty] is true exactly when [size] is 0, when [peek] is null and when
    [pop] returns null; and a [pop] that returns null changes nothing. *)
Theorem empty_observers_agree stacks userId :
  (isEmpty userId stacks = true <-> size userId stacks = 0%nat) /\
  (isEmpty userId stacks = true <-> peek userId stacks = None) /\
  (isEmpty userId stacks = true <-> (pop userId stacks).1 = None) /\
  ((pop userId stacks).1 = None -> (pop userId stacks).2 = stacks).
Proof.
  rewrite isEmpty_size.
  destruct (decide (size userId stacks = 0%nat)) as [Hz|Hnz].
  - rewrite Hz, (pop_none _ _ Hz), (peek_none _ _ Hz). simpl. done.
  - destruct (nonempty_snoc _ _ Hnz) as (arr & a & E).
    rewrite (pop_snoc _ _ _ _ E), (peek_snoc _ _ _ _ E). simpl.
    apply Nat.eqb_neq in Hnz. rewrite Hnz.
    apply Nat.eqb_neq in Hnz. repeat split; intros; done.
Qed.

(** X3. Emptying a user's array by pops and clearing it are not the same
    map: the pops leave the key with an empty array, [clear] removes the
    key.  Both read as empty. *)
Theorem drained_keeps_key_clear_removes_it stacks userId arr n :
  stacks !! userId = Some arr ->
  (length arr <= n)%nat ->
  (pop_many n userId stacks).2 !! userId = Some [] /\
  clear userId stacks !! userId = None /\
  isEmpty userId (pop_many n userId stacks).2 = true /\
  isEmpty userId (clear userId stacks) = true /\
  has userId (pop_many n userId stacks).2 = true /\
  has userId (clear userId stacks) = false.
Proof.
  intros E Hn. rewrite (pop_many_drained _ _ _ _ E Hn).
  assert (clear userId stacks !! userId = None) as Hc.
  { unfold clear. rewrite (has_Some _ _ _ E). apply lookup_delete_eq. }
  assert (<[userId := []]> stacks !! userId = Some ([] : list action)) as Hd
    by apply lookup_insert_eq.
  split; [done|]. split; [done|].
  rewrite !isEmpty_size, !size_get. unfold get. rewrite Hd, Hc. simpl.
  by rewrite (has_Some _ _ _ Hd), (has_None _ _ Hc).
Qed.

Lemma drained_keeps_key_clear_removes_it_witness :
  let stacks : UndoStack.t := {[ 7 := [sample_edit 1; sample_edit 2] ]} in
  (pop_many 2 7 stacks).2 !! 7 = Some [] /\ clear 7 stacks !! 7 = None.
Proof.
  intros stacks.
  destruct (drained_keeps_key_clear_removes_it stacks 7
              [sample_edit 1; sample_edit 2] 2 eq_refl (le_n 2))
    as (H1 & H2 & _).
  exact (conj H1 H2).
Defined.

(** X4. On a map built by method calls a push makes the user's array one
    longer up to the cap: the new size is the smaller of the old size plus
    one and 10, and never 0. *)
Theorem push_size stacks userId a :
  reachable stacks ->
  size userId (push userId a stacks) = Nat.min (S (size userId stacks)) 10 /\
  isEmpty userId (push userId a stacks) = false.
Proof.
  intros R. pose proof (reachable_size _ userId R) as Hb.
  rewrite isEmpty_size, !size_get in *. rewrite get_push.
  rewrite pushed_length by done. split; [done|].
  apply Nat.eqb_neq. lia.
Qed.

Lemma push_size_witness :
  size 7 (push 7 (sample_edit 11) (push_all 7 (sample_actions 10) empty)) =
    10%nat.
Proof.
  assert (reachable (push_all 7 (sample_actions 10) empty)) as R.
  { unfold push_all. simpl. repeat apply reachable_push. apply reachable_empty. }
  destruct (push_size _ 7 (sample_edit 11) R) as [H _].
  rewrite H. reflexivity.
Defined.

(** X5. On a map built by method calls, after pushing the actions of [l]
    a user's array holds the ten most recent entries of the old array
    followed by [l] (all of them when there are at most ten). *)
Theorem push_all_keeps_ten_newest stacks userId l :
  reachable stacks ->
  get userId (push_all userId l stacks) =
  drop (length (get userId stacks ++ l) - 10) (get userId stacks ++ l).
Proof.
  intros R. pose proof (reachable_size _ userId R) as Hb.
  rewrite size_get in Hb. set (g := get userId stacks) in *.
  induction l as [|a l IH] using rev_ind.
  - simpl. rewrite app_nil_r.
    by replace (length g - 10)%nat with 0%nat by lia.
  - rewrite push_all_snoc, get_push, IH.
    assert (length (drop (length (g ++ l) - 10) (g ++ l)) <= 10)%nat as Hd
      by (rewrite length_drop; lia).
    rewrite pushed_drop by done.
    rewrite app_assoc.
    rewrite !length_app, length_drop, !length_app. simpl.
    rewrite <- (drop_app_le (g ++ l) [a]) by (rewrite length_app; lia).
    rewrite drop_drop. f_equal. lia.
Qed.

Lemma push_all_keeps_ten_newest_witness :
  get 7 (push_all 7 (sample_actions 3) (push_all 7 (sample_actions 9) empty)) =
  drop 2 (sample_actions 9 ++ sample_actions 3).
Proof.
  assert (reachable (push_all 7 (sample_actions 9) empty)) as R.
  { unfold push_all. simpl. repeat apply reachable_push. apply reachable_empty. }
  rewrite (push_all_keeps_ten_newest _ 7 (sample_actions 3) R).
  reflexivity.
Defined.

End UndoStackMore.

(** ** More on the handlers *)

Section HandlersMore.

Import UndoStack.

Implicit Types (sv : server) (userId post_id : Z) (a : action)
  (arr : list action) (c : PostStore.columns).

Lemma handle_reachable rq sv :
  reachable (undoStack sv) -> reachable (undoStack (handle rq sv).1).
Proof.
  destruct rq; simpl;
    auto using edit_reachable, delete_reachable, undo_reachable.
Qed.

Lemma serve_reachable rqs sv :
  reachable (undoStack sv) -> reachable (undoStack (serve rqs sv)).
Proof.
  revert sv. induction rqs as [|rq rqs IH]; intros sv R; [done|].
  simpl. apply IH. by apply handle_reachable.
Qed.

(** What [undo] answers on a non-empty array is never the empty-stack
    refusal. *)
Lemma undo_nonempty_not_refused userId f sv arr a :
  undoStack sv !! userId = Some (arr ++ [a]) ->
  (undo userId f sv).2 <> failure 400 "No actions to undo" None.
Proof.
  intros E. destruct a as [post_id orig new ts | p ts | ty ts].
  - rewrite (undo_edit_top _ _ _ _ _ _ _ _ E).
    by destruct (PostStore.update_single _ _ _ _ _) as [d [q|e]].
  - rewrite (undo_delete_top _ _ _ _ _ _ E).
    by destruct (PostStore.insert_single _ _ _) as [d [q|e]].
  - by rewrite (undo_other_top _ _ _ _ _ _ E).
Qed.

(** An undo that answers 200 popped one entry and reports what is left. *)
Lemma undo_accepted userId f sv :
  status (undo userId f sv).2 = 200 ->
  exists arr a,
    undoStack sv !! userId = Some (arr ++ [a]) /\
    undoStack (undo userId f sv).1 = <[userId := arr]> (undoStack sv) /\
    remaining_undos_of (undo userId f sv).2 = Some (length arr).
Proof.
  intros Hok.
  destruct (decide (size userId (undoStack sv) = 0%nat)) as [Hz|Hnz].
  { unfold undo in Hok. rewrite isEmpty_size, Hz in Hok. discriminate. }
  destruct (nonempty_snoc _ _ Hnz) as (arr & a & E).
  exists arr, a. split; [done|]. revert Hok.
  destruct a as [post_id orig new ts | p ts | ty ts].
  - rewrite (undo_edit_top _ _ _ _ _ _ _ _ E).
    by destruct (PostStore.update_single _ _ _ _ _) as [d [q|e]].
  - rewrite (undo_delete_top _ _ _ _ _ _ E).
    by destruct (PostStore.insert_single _ _ _) as [d [q|e]].
  - by rewrite (undo_other_top _ _ _ _ _ _ E).
Qed.

(** X6. The undo-status endpoint changes nothing, answers 200, and its three
    fields agree with each other: [undo_count] is the size of the user's
    array, [undo_available] holds exactly when the count is positive, and
    [last_action] is present exactly then, carrying the type and timestamp
    of the entry the next undo would pop. *)
Theorem undo_status_consistent userId sv :
  (undo_status userId sv).1 = sv /\
  status (undo_status userId sv).2 = 200 /\
  exists available count last,
    status_of (undo_status userId sv).2 = Some (available, count, last) /\
    count = size userId (undoStack sv) /\
    (available = true <-> (0 < count)%nat) /\
    (available = true <-> is_Some last) /\
    last = (fun a => (action_type a, action_timestamp a)) <$>
             (pop userId (undoStack sv)).1.
Proof.
  split; [done|]. split; [done|].
  unfold undo_status, status_of. simpl. do 3 eexists. split; [done|].
  split; [done|]. rewrite isEmpty_size.
  destruct (decide (size userId (undoStack sv) = 0%nat)) as [Hz|Hnz].
  - rewrite Hz, (peek_none _ _ Hz), (pop_none _ _ Hz). simpl.
    split; [split; [done | lia]|]. split; [|done].
    split; [done | by intros [x Hx]].
  - destruct (nonempty_snoc _ _ Hnz) as (arr & a & E).
    rewrite (peek_snoc _ _ _ _ E), (pop_snoc _ _ _ _ E). simpl.
    pose proof Hnz as Hb. apply Nat.eqb_neq in Hb. rewrite Hb. simpl.
    split; [split; [lia | done]|]. split; [|done]. split; eauto.
Qed.

(** X7. The status endpoint predicts the undo endpoint: undo refuses with
    "No actions to undo", changing nothing, exactly when the status reports
    that no undo is available; and after an undo that answers 200 the
    status count is the [remaining_undos] of that answer, one less than the
    count before. *)
Theorem undo_status_predicts_undo userId f sv :
  ((exists count last,
      status_of (undo_status userId sv).2 = Some (false, count, last)) <->
   undo userId f sv = (sv, failure 400 "No actions to undo" None)) /\
  (status (undo userId f sv).2 = 200 ->
   exists n last last',
     status_of (undo_status userId sv).2 = Some (true, S n, last) /\
     remaining_undos_of (undo userId f sv).2 = Some n /\
     status_of (undo_status userId (undo userId f sv).1).2 =
       Some (bool_decide (n <> 0%nat), n, last')).
Proof.
  split.
  - unfold undo_status, status_of. simpl. rewrite isEmpty_size.
    destruct (decide (size userId (undoStack sv) = 0%nat)) as [Hz|Hnz].
    + split; [|rewrite Hz; simpl; eauto].
      intros _. unfold undo. by rewrite isEmpty_size, Hz.
    + destruct (nonempty_snoc _ _ Hnz) as (arr & a & E).
      pose proof Hnz as Hb. apply Nat.eqb_neq in Hb. rewrite Hb. simpl.
      split; [by intros (count & last & [=])|].
      intros Hu. exfalso.
      apply (undo_nonempty_not_refused userId f sv arr a E). by rewrite Hu.
  - intros Hok. destruct (undo_accepted _ _ _ Hok) as (arr & a & E & Hs & Hr).
    unfold undo_status, status_of. simpl. rewrite Hs, Hr.
    rewrite !isEmpty_size, (size_lookup _ _ _ E).
    rewrite (size_lookup _ _ arr) by apply lookup_insert_eq.
    rewrite length_app. simpl.
    replace (length arr + 1)%nat with (S (length arr)) by lia. simpl.
    do 3 eexists. split; [done|]. split; [done|]. f_equal. f_equal. f_equal.
    by destruct (length arr).
Qed.

Lemma undo_status_predicts_undo_witness :
  let sv := (edit 7 (EditBody (Some 1) (Some (JS.lit "B"))) sample_now
               no_edit_faults fresh_server).1 in
  exists n last last',
    status_of (undo_status 7 sv).2 = Some (true, S n, last) /\
    remaining_undos_of (undo 7 no_undo_faults sv).2 = Some n /\
    status_of (undo_status 7 (undo 7 no_undo_faults sv).1).2 =
      Some (bool_decide (n <> 0%nat), n, last').
Proof.
  intros sv.
  destruct (undo_status_predicts_undo 7 no_undo_faults sv) as [_ H].
  apply H. reflexivity.
Defined.

(** X8. A request that fails the input validation is answered 400 without
    any effect: for edit a missing or zero post id, a missing or empty
    content, or a content that is empty once trimmed; for delete a missing
    or zero post id.  Neither the undo arrays nor the database change. *)
Theorem invalid_request_rejected userId now sv :
  (forall req f,
     not_id (eb_post_id req) = true \/ not_str (eb_content req) = true \/
     (exists s, eb_content req = Some s /\ length (JS.trim s) = 0%nat) ->
     (edit userId req now f sv).1 = sv /\
     status (edit userId req now f sv).2 = 400 /\
     success (edit userId req now f sv).2 = false) /\
  (forall req f,
     not_id (db_post_id req) = true ->
     delete_ userId req now f sv =
       (sv, failure 400 "Post ID is required" None)).
Proof.
  split.
  - intros req f H. unfold edit.
    destruct (not_id (eb_post_id req) || not_str (eb_content req)) eqn:Hv;
      [done|].
    apply orb_false_iff in Hv as [Hv1 Hv2].
    destruct H as [H | [H | (s & Hs & Ht)]]; [congruence | congruence |].
    rewrite Hs. simpl. rewrite Ht. done.
  - intros req f H. unfold delete_. by rewrite H.
Qed.

Lemma invalid_request_rejected_witness :
  (edit 7 (EditBody (Some 1) (Some (JS.lit "   "))) sample_now no_edit_faults
     fresh_server).1 = fresh_server /\
  delete_ 7 (DeleteBody None) sample_now no_delete_faults fresh_server =
    (fresh_server, failure 400 "Post ID is required" None).
Proof.
  destruct (invalid_request_rejected 7 sample_now fresh_server) as [He Hd].
  split.
  - apply He. right. right. eexists. split; reflexivity.
  - apply Hd. reflexivity.
Defined.

(** X13. A request made for one user leaves the undo array of every other
    user as it was, whichever endpoint serves it and however it ends. *)
Theorem handle_other_user_unchanged rq sv other :
  request_user rq <> other ->
  undoStack (handle rq sv).1 !! other = undoStack sv !! other.
Proof.
  intros Hne.
  assert (forall a st, push (request_user rq) a st !! other = st !! other)
    as Hpush.
  { intros a st. rewrite push_insert. by apply lookup_insert_ne. }
  assert ((pop (request_user rq) (undoStack sv)).2 !! other =
          undoStack sv !! other) as Hpop.
  { unfold pop. destruct (_ || _); simpl; [done|]. by apply lookup_insert_ne. }
  destruct rq as [userId req now f | userId req now f | userId f | userId];
    simpl in *.
  - unfold edit.
    destruct (_ || _); [done|]. destruct (_ =? _)%nat; [done|].
    destruct (PostStore.select_single _ _ _ _); [|done].
    destruct (PostStore.update_single _ _ _ _ _) as [d [p|e]]; simpl;
      apply Hpush.
  - unfold delete_.
    destruct (not_id _); [done|].
    destruct (PostStore.select_single _ _ _ _); [|done].
    destruct (PostStore.delete_likes _ _ _) as [d1 e1].
    destruct (PostStore.delete_comments _ _ _) as [d2 e2].
    destruct (PostStore.delete_post _ _ _ _) as [d3 [e|]]; simpl; apply Hpush.
  - unfold undo. destruct (isEmpty _ _); [done|].
    destruct (pop userId (undoStack sv)) as [popped stacks]. simpl in Hpop.
    destruct popped as [[post_id orig new ts | p ts | ty ts]|]; simpl;
      [| |done|done].
    + destruct (PostStore.update_single _ _ _ _ _) as [d [q|e]]; simpl;
        [done | by rewrite Hpush].
    + destruct (PostStore.insert_single _ _ _) as [d [q|e]]; simpl;
        [done | by rewrite Hpush].
  - done.
Qed.

Lemma handle_other_user_unchanged_witness :
  let sv := Server {[ 8 := [sample_edit 2] ]} sample_db in
  undoStack (handle (PutEdit 7 (EditBody (Some 1) (Some (JS.lit "B")))
                       sample_now no_edit_faults) sv).1 !! 8 =
    Some [sample_edit 2].
Proof.
  intros sv.
  assert (7 <> 8) as Hne by lia.
  rewrite (handle_other_user_unchanged
             (PutEdit 7 (EditBody (Some 1) (Some (JS.lit "B"))) sample_now
                no_edit_faults) sv 8 Hne).
  reflexivity.
Defined.

(** X14. However many requests a server that started with no undo entries
    has served, in whatever order and with whatever outcome, no user's undo
    array holds more than 10 entries. *)
Theorem serve_keeps_bound rqs (d : PostStore.t) userId :
  (size userId (undoStack (serve rqs (Server empty d))) <= 10)%nat.
Proof.
  apply reachable_size, serve_reachable. simpl. apply reachable_empty.
Qed.

End HandlersMore.


(** ** Edits, deletes and undos in sequence *)

Section Sequences.

Import UndoStack.

Implicit Types (sv : server) (userId post_id : Z) (a : action)
  (arr : list action) (c : PostStore.columns) (d : PostStore.t).

(** The state an accepted edit leaves. *)
Lemma edit_accepted_state userId post_id c s now f sv :
  PostStore.posts (db sv) !! post_id = Some c ->
  PostStore.col_author_id c = userId ->
  status (edit userId (EditBody (Some post_id) (Some s)) now f sv).2 = 200 ->
  (edit userId (EditBody (Some post_id) (Some s)) now f sv).1 =
  Server
    (push userId (Edit post_id (PostStore.col_content c) (JS.trim s) now)
       (undoStack sv))
    (with_posts (db sv)
       (<[post_id := with_content c (JS.trim s)]> (PostStore.posts (db sv)))).
Proof.
  intros Hc Ha Hok.
  destruct (edit_accepted _ _ _ _ _ _ Hok) as (Hid & Ht & Hf & Hup).
  rewrite (edit_owned _ _ _ _ _ _ _ Hid Ht Hc Ha Hf).
  rewrite Hup, (update_owned _ _ _ _ _ Hc Ha). simpl.
  unfold with_posts, with_content. by rewrite Ha.
Qed.

(** An undo of an edit entry whose post is still there and still the
    user's, the write meeting no injected fault. *)
Lemma undo_edit_accepted userId f sv arr post_id orig new ts c :
  undoStack sv !! userId = Some (arr ++ [Edit post_id orig new ts]) ->
  PostStore.posts (db sv) !! post_id = Some c ->
  PostStore.col_author_id c = userId ->
  uf_restore f = None ->
  (undo userId f sv).1 =
    Server (<[userId := arr]> (undoStack sv))
      (with_posts (db sv)
         (<[post_id := with_content c orig]> (PostStore.posts (db sv)))) /\
  status (undo userId f sv).2 = 200 /\
  remaining_undos_of (undo userId f sv).2 = Some (length arr).
Proof.
  intros E Hc Ha Hu. rewrite (undo_edit_top _ _ _ _ _ _ _ _ E).
  rewrite Hu, (update_owned _ _ _ _ _ Hc Ha). simpl.
  unfold with_posts, with_content. by rewrite Ha.
Qed.

(** Two pushes in a row end the array with the two actions, in order. *)
Lemma push_push_lookup (stacks : UndoStack.t) userId a b :
  exists arr,
    push userId b (push userId a stacks) !! userId = Some ((arr ++ [a]) ++ [b]).
Proof.
  rewrite push_lookup, get_push, pushed_snoc.
  set (ga := if (10 <? length (get userId stacks ++ [a]))%nat
             then shift (get userId stacks) else get userId stacks).
  destruct (10 <? length ((ga ++ [a]) ++ [b]))%nat eqn:El; [|eauto].
  apply Nat.ltb_lt in El. rewrite !length_app in El. simpl in El.
  destruct ga as [|x ga]; simpl in *; [lia|]. by exists ga.
Qed.

(** X9. When the update of an edit fails after the lookup succeeded, the
    request is answered 500 and the database is as before, but the undo
    entry recorded before the update stays on top of the user's array; a
    later undo pops it, answers 200 and leaves the posts as they were. *)
Theorem failed_edit_leaves_undo_entry userId post_id c s now fe fu sv e :
  post_id <> 0 ->
  length (JS.trim s) <> 0%nat ->
  PostStore.posts (db sv) !! post_id = Some c ->
  PostStore.col_author_id c = userId ->
  ef_fetch fe = None ->
  ef_update fe = Some e ->
  uf_restore fu = None ->
  let r1 := edit userId (EditBody (Some post_id) (Some s)) now fe sv in
  let r2 := undo userId fu r1.1 in
  r1.2 = failure 500 "Failed to update post" (Some e) /\
  db r1.1 = db sv /\
  peek userId (undoStack r1.1) =
    Some (Edit post_id (PostStore.col_content c) (JS.trim s) now) /\
  status r2.2 = 200 /\
  PostStore.posts (db r2.1) = PostStore.posts (db sv).
Proof.
  intros Hid Ht Hc Ha Hf Hup Hu r1 r2. subst r1 r2.
  rewrite (edit_owned _ _ _ _ _ _ _ Hid Ht Hc Ha Hf).
  unfold PostStore.update_single at 1. rewrite Hup. simpl.
  pose proof (push_lookup (undoStack sv) userId
                (Edit post_id (PostStore.col_content c) (JS.trim s) now)) as E.
  rewrite (peek_snoc _ _ _ _ E).
  destruct (undo_edit_accepted userId fu
              (Server (push userId
                         (Edit post_id (PostStore.col_content c) (JS.trim s) now)
                         (undoStack sv)) (db sv))
              _ _ _ _ _ c E Hc Ha Hu) as (Hs & Hst & _).
  rewrite Hs, Hst. simpl.
  replace (with_content c (PostStore.col_content c)) with c
    by (by destruct c).
  by rewrite (insert_id _ _ _ Hc).
Qed.

Lemma failed_edit_leaves_undo_entry_witness :
  let fe := EditFaults None (Some "connection reset") in
  let r1 := edit 7 (EditBody (Some 1) (Some (JS.lit "B"))) sample_now fe
              fresh_server in
  r1.2 = failure 500 "Failed to update post" (Some "connection reset") /\
  size 7 (undoStack r1.1) = 1%nat.
Proof.
  intros fe r1.
  assert (1 <> 0) as Hid by lia.
  assert (length (JS.trim (JS.lit "B")) <> 0%nat) as Ht by (simpl; lia).
  destruct (failed_edit_leaves_undo_entry 7 1
              (PostStore.Columns 7 (JS.lit "A") 3 "2024-12-31T10:00:00.000Z")
              (JS.lit "B") sample_now fe no_undo_faults fresh_server
              "connection reset" Hid Ht eq_refl eq_refl eq_refl eq_refl eq_refl)
    as (H1 & _).
  split; [exact H1 | reflexivity].
Defined.

(** X12. Two accepted edits of one's own post followed by two undos whose
    writes meet no injected fault unwind in reverse order: the first undo
    brings back the content of the first edit, the second the original
    content, and the posts are then as before the edits. *)
Theorem two_edits_two_undos_restore userId post_id c s1 s2 now1 now2
    fe1 fe2 fu1 fu2 sv :
  PostStore.posts (db sv) !! post_id = Some c ->
  PostStore.col_author_id c = userId ->
  let r1 := edit userId (EditBody (Some post_id) (Some s1)) now1 fe1 sv in
  let r2 := edit userId (EditBody (Some post_id) (Some s2)) now2 fe2 r1.1 in
  let r3 := undo userId fu1 r2.1 in
  let r4 := undo userId fu2 r3.1 in
  status r1.2 = 200 ->
  status r2.2 = 200 ->
  uf_restore fu1 = None ->
  uf_restore fu2 = None ->
  status r3.2 = 200 /\
  PostStore.posts (db r3.1) !! post_id = Some (with_content c (JS.trim s1)) /\
  status r4.2 = 200 /\
  PostStore.posts (db r4.1) = PostStore.posts (db sv).
Proof.
  intros Hc Ha r1 r2 r3 r4 Hok1 Hok2 Hu1 Hu2.
  pose proof (edit_accepted_state _ _ _ _ _ _ _ Hc Ha Hok1) as H1.
  fold r1 in H1.
  assert (PostStore.posts (db r1.1) !! post_id =
          Some (with_content c (JS.trim s1))) as Hc1
    by (rewrite H1; apply lookup_insert_eq).
  pose proof (edit_accepted_state userId post_id _ s2 now2 fe2 r1.1 Hc1 Ha Hok2)
    as H2.
  fold r2 in H2.
  destruct (push_push_lookup (undoStack sv) userId
              (Edit post_id (PostStore.col_content c) (JS.trim s1) now1)
              (Edit post_id (JS.trim s1) (JS.trim s2) now2)) as [arr E].
  assert (undoStack r2.1 !! userId =
          Some ((arr ++ [Edit post_id (PostStore.col_content c) (JS.trim s1) now1])
                  ++ [Edit post_id (JS.trim s1) (JS.trim s2) now2])) as E2.
  { rewrite H2. simpl. rewrite H1. simpl. exact E. }
  assert (PostStore.posts (db r2.1) !! post_id =
          Some (with_content (with_content c (JS.trim s1)) (JS.trim s2))) as Hc2
    by (rewrite H2; apply lookup_insert_eq).
  destruct (undo_edit_accepted userId fu1 r2.1 _ _ _ _ _ _ E2 Hc2 Ha Hu1)
    as (H3 & Hst3 & _).
  fold r3 in H3, Hst3.
  assert (PostStore.posts (db r3.1) !! post_id =
          Some (with_content c (JS.trim s1))) as Hc3
    by (rewrite H3; apply lookup_insert_eq).
  assert (undoStack r3.1 !! userId =
          Some (arr ++ [Edit post_id (PostStore.col_content c) (JS.trim s1) now1]))
    as E3 by (rewrite H3; apply lookup_insert_eq).
  destruct (undo_edit_accepted userId fu2 r3.1 _ _ _ _ _ _ E3 Hc3 Ha Hu2)
    as (H4 & Hst4 & _).
  fold r4 in H4, Hst4.
  split; [done|]. split; [done|]. split; [done|].
  rewrite H4. simpl. rewrite H3. simpl. rewrite H2. simpl. rewrite H1. simpl.
  rewrite !insert_insert_eq.
  replace (with_content (with_content c (JS.trim s1)) (PostStore.col_content c))
    with c by (by destruct c).
  by apply insert_id.
Qed.

Lemma two_edits_two_undos_restore_witness :
  let r1 := edit 7 (EditBody (Some 1) (Some (JS.lit "B"))) sample_now
              no_edit_faults fresh_server in
  let r2 := edit 7 (EditBody (Some 1) (Some (JS.lit "C"))) sample_now
              no_edit_faults r1.1 in
  let r3 := undo 7 no_undo_faults r2.1 in
  let r4 := undo 7 no_undo_faults r3.1 in
  (PostStore.col_content <$> PostStore.posts (db r3.1) !! 1) =
    Some (JS.lit "B") /\
  PostStore.posts (db r4.1) = PostStore.posts (db fresh_server).
Proof.
  destruct (two_edits_two_undos_restore 7 1
              (PostStore.Columns 7 (JS.lit "A") 3 "2024-12-31T10:00:00.000Z")
              (JS.lit "B") (JS.lit "C") sample_now sample_now
              no_edit_faults no_edit_faults no_undo_faults no_undo_faults
              fresh_server eq_refl eq_refl eq_refl eq_refl eq_refl eq_refl)
    as (_ & H3 & _ & H4).
  split; [rewrite H3; reflexivity | exact H4].
Defined.

End Sequences.

(** ** The cascade of a delete *)

Section Cascade.

Import UndoStack.

Implicit Types (sv : server) (userId post_id : Z) (c : PostStore.columns)
  (d : PostStore.t).


Lemma filter_same_key {A} (key : A -> Z) (j : Z) (l : list A) :
  filter (fun x => key x = j) (filter (fun x => key x ≠ j) l) = [].
Proof.
  induction l as [|x l IH]; [done|].
  rewrite filter_cons. case_decide; [|done].
  by rewrite filter_cons_False.
Qed.



(** The state an accepted delete leaves. *)
Lemma delete_accepted_state userId post_id c now f sv :
  PostStore.posts (db sv) !! post_id = Some c ->
  PostStore.col_author_id c = userId ->
  status (delete_ userId (DeleteBody (Some post_id)) now f sv).2 = 200 ->
  (delete_ userId (DeleteBody (Some post_id)) now f sv).1 =
  Server
    (push userId (Delete (PostStore.row post_id c) now) (undoStack sv))
    (with_posts
       (PostStore.delete_comments (df_comments f) post_id
          (PostStore.delete_likes (df_likes f) post_id (db sv)).1).1
       (delete post_id (PostStore.posts (db sv)))).
Proof.
  intros Hc Ha Hok. destruct (delete_accepted _ _ _ _ _ Hok) as (Hid & Hf & Hp).
  rewrite (delete_owned _ _ _ _ _ _ Hid Hc Ha Hf). cbv zeta.
  unfold PostStore.delete_post. rewrite Hp, cascade_posts, Hc.
  apply Z.eqb_eq in Ha. by rewrite Ha.
Qed.



(** X11. After an accepted delete whose cascade met no error, an undo
    whose insert meets no injected fault puts the row back with its
    snapshotted [likes] column, but the counts it reports are the live ones:
    0 likes and 0 comments, the cascade having removed them. *)
Theorem undo_delete_reports_live_counts userId post_id c now fd fu sv :
  PostStore.posts (db sv) !! post_id = Some c ->
  PostStore.col_author_id c = userId ->
  let r1 := delete_ userId (DeleteBody (Some post_id)) now fd sv in
  let r2 := undo userId fu r1.1 in
  status r1.2 = 200 ->
  df_likes fd = None ->
  df_comments fd = None ->
  uf_restore fu = None ->
  (PostStore.col_likes <$> PostStore.posts (db r2.1) !! post_id) =
    Some (PostStore.col_likes c) /\
  (pv_likes_count <$> restored_of r2.2) = Some 0%nat /\
  (pv_comments_count <$> restored_of r2.2) = Some 0%nat.
Proof.
  intros Hc Ha r1 r2 Hok Hl Hcm Hu. subst r1 r2.
  rewrite (delete_accepted_state _ _ _ _ _ _ Hc Ha Hok).
  pose proof (push_lookup (undoStack sv) userId
                (Delete (PostStore.row post_id c) now)) as E.
  erewrite undo_delete_top by (simpl; exact E).
  unfold PostStore.insert_single. rewrite Hu. simpl.
  rewrite lookup_delete_eq. simpl. rewrite lookup_insert_eq. simpl.
  split; [done|]. rewrite Hl, Hcm. simpl.
  unfold PostStore.count_likes, PostStore.count_comments. simpl.
  destruct (uf_likes fu), (uf_comments fu); simpl;
    rewrite ?filter_same_key; done.
Qed.

Lemma undo_delete_reports_live_counts_witness :
  let r1 := delete_ 7 (DeleteBody (Some 1)) sample_now no_delete_faults
              fresh_server in
  let r2 := undo 7 no_undo_faults r1.1 in
  (PostStore.col_likes <$> PostStore.posts (db r2.1) !! 1) = Some 3 /\
  (pv_likes_count <$> restored_of r2.2) = Some 0%nat.
Proof.
  destruct (undo_delete_reports_live_counts 7 1
              (PostStore.Columns 7 (JS.lit "A") 3 "2024-12-31T10:00:00.000Z")
              sample_now no_delete_faults no_undo_faults fresh_server
              eq_refl eq_refl eq_refl eq_refl eq_refl eq_refl)
    as (H1 & H2 & _).
  exact (conj H1 H2).
Defined.

End Cascade.

(** ** The client's Queue and Stack *)

Section QueueFacts.

Context {A : Type}.
Implicit Types (q : Queue.t A) (xs : list A) (x : A).

Lemma queue_enqueue_all_items xs q :
  Queue.items (Queue.enqueue_all xs q) = Queue.items q ++ xs.
Proof.
  revert q. induction xs as [|x xs IH]; intros q; simpl.
  - by rewrite app_nil_r.
  - rewrite IH. simpl. by rewrite <- app_assoc.
Qed.

Lemma queue_dequeue_many_items n (l : list A) :
  (length l <= n)%nat ->
  Queue.dequeue_many n (Queue.Make l) = (l, Queue.Make []).
Proof.
  revert l. induction n as [|n IH]; intros l Hn.
  - by destruct l; simpl in *; [|lia].
  - destruct l as [|x l]; simpl in *.
    + rewrite (IH []) by (simpl; lia). done.
    + rewrite (IH l) by lia. done.
Qed.

(** X15. A queue gives its elements back in the order they went in: after
    enqueueing [xs], enough dequeues return the old contents followed by
    [xs], in that order, and leave the queue empty. *)
Theorem queue_fifo q xs n :
  (Queue.size (Queue.enqueue_all xs q) <= n)%nat ->
  Queue.toArray (Queue.enqueue_all xs q) = Queue.toArray q ++ xs /\
  (Queue.dequeue_many n (Queue.enqueue_all xs q)).1 = Queue.toArray q ++ xs /\
  Queue.isEmpty (Queue.dequeue_many n (Queue.enqueue_all xs q)).2 = true.
Proof.
  unfold Queue.size, Queue.toArray. intros Hn.
  split; [apply queue_enqueue_all_items|].
  destruct (Queue.enqueue_all xs q) as [l] eqn:E.
  pose proof (queue_enqueue_all_items xs q) as Hl. rewrite E in Hl.
  simpl in *. rewrite (queue_dequeue_many_items n l Hn). simpl.
  by rewrite Hl.
Qed.

(** X16. [front] returns what the next [dequeue] will return; a [dequeue]
    on an empty queue returns null and changes nothing, and on a non-empty
    queue it removes exactly the first element. *)
Theorem queue_dequeue_front q :
  Queue.front q = (Queue.dequeue q).1 /\
  (Queue.isEmpty q = true -> Queue.dequeue q = (None, q)) /\
  (forall x rest,
     Queue.toArray q = x :: rest ->
     Queue.dequeue q = (Some x, Queue.Make rest)) /\
  Queue.size (Queue.dequeue q).2 = (Queue.size q - 1)%nat.
Proof.
  destruct q as [[|x l]];
    unfold Queue.front, Queue.dequeue, Queue.toArray, Queue.size; simpl.
  - split; [done|]. split; [done|]. split; [|done]. by intros y rest [=].
  - split; [done|]. split; [done|]. split; [|lia].
    by intros y rest [= <- <-].
Qed.

End QueueFacts.

Lemma queue_fifo_witness :
  (Queue.dequeue_many 5 (Queue.enqueue_all [3; 4] (Queue.Make [1; 2]))).1 =
    [1; 2; 3; 4].
Proof.
  assert (Queue.size (Queue.enqueue_all [3; 4] (Queue.Make [1; 2])) <= 5)%nat
    as Hn by (vm_compute; lia).
  destruct (queue_fifo (Queue.Make [1; 2]) [3; 4] 5 Hn) as (_ & H & _).
  exact H.
Defined.

Lemma queue_dequeue_front_witness :
  Queue.dequeue (Queue.Make [1; 2; 3]) = (Some 1, Queue.Make [2; 3]) /\
  Queue.dequeue (@Queue.empty nat) = (None, Queue.empty).
Proof.
  split.
  - apply (queue_dequeue_front (Queue.Make [1; 2; 3])). reflexivity.
  - apply (queue_dequeue_front (@Queue.empty nat)). reflexivity.
Defined.

Section StackFacts.

Context {A : Type}.
Implicit Types (s : Stack.t A) (xs : list A) (x : A).

Lemma stack_push_all_items xs s :
  Stack.items (Stack.push_all xs s) = Stack.items s ++ xs.
Proof.
  revert s. induction xs as [|x xs IH]; intros s; simpl.
  - by rewrite app_nil_r.
  - rewrite IH. simpl. by rewrite <- app_assoc.
Qed.

Lemma stack_pop_snoc (l : list A) x :
  Stack.pop (Stack.Make (l ++ [x])) = (Some x, Stack.Make l).
Proof.
  unfold Stack.pop, Stack.isEmpty. simpl. rewrite length_app. simpl.
  replace (length l + 1 =? 0)%nat with false
    by (symmetry; apply Nat.eqb_neq; lia).
  by rewrite last_snoc, removelast_last.
Qed.

Lemma stack_pop_many_items n (l : list A) :
  (length l <= n)%nat ->
  Stack.pop_many n (Stack.Make l) = (rev l, Stack.Make []).
Proof.
  revert l. induction n as [|n IH]; intros l Hn.
  - by destruct l; simpl in *; [|lia].
  - destruct l as [|x l _] using rev_ind.
    + simpl. rewrite (IH []) by (simpl; lia). done.
    + rewrite length_app in Hn. simpl in Hn.
      cbn [Stack.pop_many]. rewrite stack_pop_snoc.
      rewrite (IH l) by lia. by rewrite rev_app_distr.
Qed.

(** X17. The client's stack has no cap and undoes a push exactly: a [pop]
    right after a [push] returns the pushed element and leaves the stack
    that was there before; the size grows by one with every push; and
    enough pops return everything, newest first, which is the order the
    history page lists ([toArray().reverse()]). *)
Theorem stack_lifo s xs x n :
  Stack.pop (Stack.push x s) = (Some x, s) /\
  Stack.peek (Stack.push x s) = Some x /\
  Stack.size (Stack.push_all xs s) = (Stack.size s + length xs)%nat /\
  ((Stack.size s <= n)%nat ->
   (Stack.pop_many n s).1 = rev (Stack.toArray s) /\
   Stack.isEmpty (Stack.pop_many n s).2 = true).
Proof.
  destruct s as [l]. unfold Stack.push, Stack.size, Stack.toArray. simpl.
  split; [apply stack_pop_snoc|]. split; [|split].
  - unfold Stack.peek, Stack.isEmpty. simpl. rewrite length_app. simpl.
    replace (length l + 1 =? 0)%nat with false
      by (symmetry; apply Nat.eqb_neq; lia).
    replace (length l + 1 - 1)%nat with (length l + 0)%nat by lia.
    by rewrite lookup_app_r, Nat.add_comm, Nat.add_sub by lia.
  - by rewrite stack_push_all_items, length_app.
  - intros Hn. by rewrite (stack_pop_many_items n l Hn).
Qed.

(** X18. [pop] and [peek] on an empty stack return null and change
    nothing; on a non-empty stack [peek] returns what [pop] returns and
    [pop] shortens the stack by exactly one. *)
Theorem stack_pop_peek s :
  Stack.peek s = (Stack.pop s).1 /\
  (Stack.isEmpty s = true -> Stack.pop s = (None, s)) /\
  Stack.size (Stack.pop s).2 = (Stack.size s - 1)%nat.
Proof.
  destruct s as [l]. destruct l as [|x l _] using rev_ind.
  - done.
  - rewrite stack_pop_snoc. unfold Stack.peek, Stack.isEmpty, Stack.size.
    simpl. rewrite length_app. simpl.
    replace (length l + 1 =? 0)%nat with false
      by (symmetry; apply Nat.eqb_neq; lia).
    replace (length l + 1 - 1)%nat with (length l + 0)%nat by lia.
    rewrite lookup_app_r, Nat.add_comm, Nat.add_sub by lia.
    split; [done|]. split; [done | lia].
Qed.

End StackFacts.

Lemma stack_lifo_witness :
  (Stack.pop_many 4 (Stack.Make [1; 2; 3])).1 = [3; 2; 1].
Proof.
  assert (Stack.size (Stack.Make [1; 2; 3]) <= 4)%nat as Hn
    by (vm_compute; lia).
  destruct (stack_lifo (Stack.Make [1; 2; 3]) [] 0 4) as (_ & _ & _ & H).
  destruct (H Hn) as [Hp _]. exact Hp.
Defined.

Lemma stack_pop_peek_witness :
  Stack.pop (@Stack.empty nat) = (None, Stack.empty).
Proof. apply (stack_pop_peek (@Stack.empty nat)). reflexivity. Defined.

(** ** The client's LinkedList *)

Section LinkedListFacts.

Import LinkedList.

Context {A K : Type} `{EqDecision K} (id_of : A -> K).
Implicit Types (l : LinkedList.t A) (h : link A) (x y : A) (id : K).

Lemma collect_attach h (newNode : link A) :
  collect (attach h newNode) = collect h ++ collect newNode.
Proof.
  induction h as [|d next IH]; [done|].
  destruct next as [|d' next']; [done|].
  cbn [attach collect app] in *. by rewrite IH.
Qed.

Lemma toArray_add x l : toArray (add x l) = toArray l ++ [x].
Proof.
  unfold toArray, add. simpl. destruct (head l) as [|d next] eqn:E; [done|].
  by rewrite collect_attach.
Qed.

Lemma search_none h id :
  search id_of id h = None <-> forall y, y ∈ collect h -> id_of y <> id.
Proof.
  induction h as [|d next IH]; simpl.
  - split; [|done]. intros _ y Hy. by apply not_elem_of_nil in Hy.
  - case_decide as Hd.
    + split; [done|]. intros Hall. exfalso.
      apply (Hall d); [apply list_elem_of_here | done].
    + rewrite IH. split.
      * intros Hall y Hy. apply elem_of_cons in Hy as [-> | Hy]; auto.
      * intros Hall y Hy. apply Hall. by apply list_elem_of_further.
Qed.

Lemma search_first h id pre x post :
  collect h = pre ++ x :: post ->
  id_of x = id ->
  (forall y, y ∈ pre -> id_of y <> id) ->
  search id_of id h = Some x.
Proof.
  revert h. induction pre as [|p pre IH]; intros h Hc Hx Hpre.
  - destruct h as [|d next]; [done|]. simpl in *. injection Hc as -> _.
    by rewrite decide_True.
  - destruct h as [|d next]; [done|]. simpl in *. injection Hc as -> Hc.
    rewrite decide_False by (apply Hpre, list_elem_of_here).
    apply IH; [done | done |].
    intros y Hy. apply Hpre. by apply list_elem_of_further.
Qed.

Lemma search_some h id x :
  search id_of id h = Some x ->
  exists pre post,
    collect h = pre ++ x :: post /\ id_of x = id /\
    (forall y, y ∈ pre -> id_of y <> id).
Proof.
  induction h as [|d next IH]; [done|]. simpl. case_decide as Hd.
  - intros [= ->]. exists [], (collect next). split; [done|]. split; [done|].
    intros y Hy. by apply not_elem_of_nil in Hy.
  - intros Hs. destruct (IH Hs) as (pre & post & Hc & Hx & Hpre).
    exists (d :: pre), post. rewrite Hc. split; [done|]. split; [done|].
    intros y Hy. apply elem_of_cons in Hy as [-> | Hy]; auto.
Qed.

Lemma unlink_next_step d d' next' id :
  unlink_next id_of id (Node d (Node d' next')) =
  if decide (id_of d' = id) then Some (Node d next')
  else match unlink_next id_of id (Node d' next') with
       | Some next1 => Some (Node d next1)
       | None => None
       end.
Proof. done. Qed.

Lemma collect_inj h1 h2 : collect h1 = collect h2 -> h1 = h2.
Proof.
  revert h2. induction h1 as [|d next IH]; intros [|d2 next2] Hc; try done.
  simpl in Hc. injection Hc as -> Hc. by rewrite (IH _ Hc).
Qed.

(** Dropping an element with another id does not change what a search
    finds. *)
Lemma search_skip h h' id pre x post :
  collect h = pre ++ x :: post ->
  collect h' = pre ++ post ->
  id_of x <> id ->
  search id_of id h = search id_of id h'.
Proof.
  revert h h'. induction pre as [|p pre IH]; intros h h' Hc Hc' Hx.
  - destruct h as [|d next]; [done|]. simpl in *. injection Hc as -> Hc.
    rewrite decide_False by done. f_equal. apply collect_inj. congruence.
  - destruct h as [|d next], h' as [|d2 next2]; try done. simpl in *.
    injection Hc as -> Hc. injection Hc' as -> Hc'.
    case_decide; [done|]. by apply IH.
Qed.

Lemma unlink_next_none d next id :
  search id_of id next = None ->
  unlink_next id_of id (Node d next) = None.
Proof.
  revert d. induction next as [|d' next' IH]; intros d Hs; [done|].
  simpl in Hs. rewrite unlink_next_step. case_decide; [done|].
  by rewrite (IH d' Hs).
Qed.

Lemma unlink_next_first d next id pre x post :
  collect next = pre ++ x :: post ->
  id_of x = id ->
  (forall y, y ∈ pre -> id_of y <> id) ->
  exists h,
    unlink_next id_of id (Node d next) = Some h /\
    collect h = d :: pre ++ post.
Proof.
  revert d next. induction pre as [|p pre IH]; intros d next Hc Hx Hpre.
  - destruct next as [|d' next']; [done|]. simpl in Hc. injection Hc as -> Hc.
    rewrite unlink_next_step, decide_True by done.
    eexists. split; [done|]. simpl. by rewrite Hc.
  - destruct next as [|d' next']; [done|]. simpl in Hc. injection Hc as -> Hc.
    rewrite unlink_next_step.
    rewrite decide_False by (apply Hpre, list_elem_of_here).
    destruct (IH p next' Hc Hx) as (h & Hh & Hch).
    { intros y Hy. apply Hpre. by apply list_elem_of_further. }
    rewrite Hh. eexists. split; [done|]. simpl. by rewrite Hch.
Qed.

(** X19. [add] puts the new element at the end: the array of the list is
    the old array followed by the element, and the counter is one more. *)
Theorem linked_list_add_appends x l :
  toArray (add x l) = toArray l ++ [x] /\
  getSize (add x l) = getSize l + 1 /\
  (forall id, find id_of id l = None -> id_of x = id ->
              find id_of id (add x l) = Some x).
Proof.
  split; [apply toArray_add|]. split; [done|].
  intros id Hf Hx. unfold find in *.
  apply (search_first _ _ (toArray l) x []); [|done|by apply search_none].
  apply toArray_add.
Qed.

(** X20. [find(id)] returns the first element, in list order, whose id is
    [id], and null exactly when no element carries that id. *)
Theorem linked_list_find_first l id :
  (find id_of id l = None <->
   forall y, y ∈ toArray l -> id_of y <> id) /\
  (forall pre x post,
     toArray l = pre ++ x :: post ->
     id_of x = id ->
     (forall y, y ∈ pre -> id_of y <> id) ->
     find id_of id l = Some x).
Proof.
  split; [apply search_none|].
  intros pre x post. apply search_first.
Qed.

(** The effect of [remove] on the array and on the counter. *)
Lemma remove_first l id pre x post :
  toArray l = pre ++ x :: post ->
  id_of x = id ->
  (forall y, y ∈ pre -> id_of y <> id) ->
  (remove id_of id l).1 = true /\
  toArray (remove id_of id l).2 = pre ++ post /\
  size (remove id_of id l).2 = size l - 1.
Proof.
  unfold toArray, remove. intros Hc Hx Hpre.
  destruct (head l) as [|d next] eqn:E; [by destruct pre|].
  destruct pre as [|p pre]; simpl in Hc; injection Hc as -> Hc.
  - rewrite decide_True by done. simpl. by rewrite Hc.
  - rewrite decide_False by (apply Hpre, list_elem_of_here).
    destruct (unlink_next_first p next id pre x post Hc Hx) as (h & Hh & Hch).
    { intros y Hy. apply Hpre. by apply list_elem_of_further. }
    rewrite Hh. simpl. by rewrite Hch.
Qed.

Lemma remove_absent l id :
  find id_of id l = None -> remove id_of id l = (false, l).
Proof.
  unfold find, remove. intros Hs.
  destruct (head l) as [|d next] eqn:E; [done|].
  simpl in Hs. destruct (decide (id_of d = id)); [done|].
  by rewrite (unlink_next_none d next id Hs).
Qed.

(** X21. [remove(id)] unlinks the first element whose id is [id] and only
    that one, keeping the others in order, lowers the counter by one and
    returns true; when no element carries the id it returns false and
    changes nothing.  It returns true exactly when [find(id)] found
    something. *)
Theorem linked_list_remove_first l id :
  (forall pre x post,
     toArray l = pre ++ x :: post ->
     id_of x = id ->
     (forall y, y ∈ pre -> id_of y <> id) ->
     (remove id_of id l).1 = true /\
     toArray (remove id_of id l).2 = pre ++ post /\
     getSize (remove id_of id l).2 = getSize l - 1) /\
  (find id_of id l = None -> remove id_of id l = (false, l)) /\
  ((remove id_of id l).1 = true <-> is_Some (find id_of id l)).
Proof.
  split; [intros pre x post; apply remove_first|].
  split; [apply remove_absent|].
  destruct (find id_of id l) as [x|] eqn:Hf.
  - destruct (search_some _ _ _ Hf) as (pre & post & Hc & Hx & Hpre).
    destruct (remove_first l id pre x post Hc Hx Hpre) as (Hr & _).
    split; eauto.
  - rewrite (remove_absent l id Hf). simpl. split; [done|].
    by intros [x Hx].
Qed.

(** X22. The counter the list keeps by hand is right: on every list built
    from the constructor's by [add], [remove] and [clear], [getSize] is the
    number of elements of [toArray], and [isEmpty] holds exactly when there
    is none. *)
Theorem linked_list_size_counts l :
  reachable id_of l ->
  getSize l = Z.of_nat (length (toArray l)) /\
  (isEmpty l = true <-> toArray l = []).
Proof.
  intros R.
  assert (size l = Z.of_nat (length (toArray l))) as Hs.
  { induction R as [|x l R IH|id l R IH|l R IH]; [done| | |done].
    - rewrite toArray_add, length_app. simpl. lia.
    - destruct (find id_of id l) as [x|] eqn:Hf.
      + destruct (search_some _ _ _ Hf) as (pre & post & Hc & Hx & Hpre).
        destruct (remove_first l id pre x post Hc Hx Hpre) as (_ & Ha & Hz).
        rewrite Ha, Hz, IH. unfold toArray in *. rewrite Hc, !length_app.
        simpl. lia.
      + by rewrite (remove_absent l id Hf). }
  split; [done|]. unfold isEmpty. rewrite Hs.
  destruct (toArray l); simpl; [done|]. split; intros Hz; done.
Qed.

(** X23. Removing an id does not disturb the other ids: [find] returns for
    every other id what it returned before.  When no two elements share an
    id, the removed id is gone: [find] returns null for it afterwards. *)
Theorem linked_list_remove_then_find l id :
  (forall id', id' <> id ->
     find id_of id' (remove id_of id l).2 = find id_of id' l) /\
  (NoDup (id_of <$> toArray l) ->
   find id_of id (remove id_of id l).2 = None).
Proof.
  destruct (find id_of id l) as [x|] eqn:Hf.
  2:{ rewrite (remove_absent l id Hf). by split. }
  destruct (search_some _ _ _ Hf) as (pre & post & Hc & Hx & Hpre).
  destruct (remove_first l id pre x post Hc Hx Hpre) as (_ & Ha & _).
  split.
  - intros id' Hne. unfold find. symmetry.
    apply (search_skip _ _ id' pre x post); [done | done | congruence].
  - intros Hnd. unfold toArray in Hnd.
    rewrite Hc, fmap_app, fmap_cons in Hnd.
    apply NoDup_app in Hnd as (_ & _ & Hnd).
    apply NoDup_cons in Hnd as [Hx_post _].
    apply search_none. fold (toArray (remove id_of id l).2). rewrite Ha.
    intros y Hy. apply elem_of_app in Hy as [Hy | Hy]; [by apply Hpre|].
    intros Hid. apply Hx_post. rewrite Hx, <- Hid.
    by apply list_elem_of_fmap_2.
Qed.

End LinkedListFacts.

(** ** The client's NavigationStack *)

Section NavigationFacts.

Import NavigationStack.

Implicit Types (s : NavigationStack.t) (e : entry).

Lemma stack_update s : stack (updateBackButtonVisibility s) = stack s.
Proof.
  unfold updateBackButtonVisibility.
  destruct (backBtn s); [|done]. by destruct (1 <? size s)%nat.
Qed.

Lemma update_in_step s : button_in_step (updateBackButtonVisibility s).
Proof.
  intros st. unfold updateBackButtonVisibility, size.
  destruct (backBtn s) as [st0|] eqn:Hb; [|by rewrite Hb].
  destruct (1 <? length (stack s))%nat eqn:Hl; simpl; rewrite Hl;
    by intros [= <-].
Qed.

Lemma pop_snoc_entry (l : list entry) e btn :
  pop (Make (l ++ [e]) btn) =
  (Some e, updateBackButtonVisibility (Make l btn)).
Proof.
  unfold pop, isEmpty. simpl. rewrite length_app. simpl.
  replace (length l + 1 =? 0)%nat with false
    by (symmetry; apply Nat.eqb_neq; lia).
  by rewrite last_snoc, removelast_last.
Qed.

Lemma pop_nil btn : pop (Make [] btn) = (None, Make [] btn).
Proof. done. Qed.

Lemma peek_snoc_entry s (l : list entry) e :
  stack s = l ++ [e] -> peek s = Some e.
Proof.
  intros E. unfold peek, isEmpty. rewrite E, length_app. simpl.
  replace (length l + 1 =? 0)%nat with false
    by (symmetry; apply Nat.eqb_neq; lia).
  replace (length l + 1 - 1)%nat with (length l + 0)%nat by lia.
  by rewrite lookup_app_r, Nat.add_comm, Nat.add_sub by lia.
Qed.

Lemma peek_last s : peek s = last (stack s).
Proof.
  destruct s as [l btn]. destruct l as [|e l _] using rev_ind; [done|].
  rewrite (peek_snoc_entry _ l e) by done. simpl. by rewrite last_snoc.
Qed.

Lemma pop_stack s : stack (pop s).2 = removelast (stack s).
Proof.
  destruct s as [l btn]. destruct l as [|e l _] using rev_ind; [done|].
  rewrite pop_snoc_entry. simpl. by rewrite stack_update, removelast_last.
Qed.

Lemma navigateBack_split s :
  navigateBack s = (page <$> peek (pop s).2, (pop s).2).
Proof.
  unfold navigateBack. destruct (pop s) as [r s1]. simpl.
  destruct (isEmpty s1) eqn:Hemp; [|by destruct (peek s1)].
  unfold peek. by rewrite Hemp.
Qed.

Lemma getPreviousPage_last s :
  getPreviousPage s = page <$> last (removelast (stack s)).
Proof.
  unfold getPreviousPage, size.
  destruct (stack s) as [|e l _] using rev_ind; [done|].
  rewrite removelast_last, length_app. simpl.
  destruct l as [|e' l _] using rev_ind; [done|].
  rewrite last_snoc, !length_app. simpl.
  replace (length l + 1 + 1 <? 2)%nat with false
    by (symmetry; apply Nat.ltb_ge; lia).
  replace (length l + 1 + 1 - 2)%nat with (length l + 0)%nat by lia.
  rewrite <- app_assoc, lookup_app_r by lia.
  by rewrite Nat.add_comm, Nat.add_sub.
Qed.

(** X24. [navigateBack] drops the current page and returns the page under
    it: what it returns is what [getPreviousPage] returned before the call,
    and the stack loses exactly its top entry.  With fewer than two pages it
    returns null and leaves the stack empty.  After visiting [p1] and then
    [p2], it returns [p1] and [p1] is on top again. *)
Theorem navigate_back_returns_previous s :
  (navigateBack s).1 = getPreviousPage s /\
  stack (navigateBack s).2 = removelast (stack s) /\
  ((size s < 2)%nat ->
   (navigateBack s).1 = None /\ stack (navigateBack s).2 = []) /\
  (forall p1 p2 t1 t2 y1 y2,
     (navigateBack (push p2 t2 y2 (push p1 t1 y1 s))).1 = Some p1 /\
     toArray (navigateBack (push p2 t2 y2 (push p1 t1 y1 s))).2 =
       toArray s ++ [p1]).
Proof.
  assert (forall s',
            (navigateBack s').1 = page <$> last (removelast (stack s')) /\
            stack (navigateBack s').2 = removelast (stack s')) as Hgen.
  { intros s'. rewrite navigateBack_split. simpl.
    by rewrite peek_last, pop_stack. }
  destruct (Hgen s) as [H1 H2].
  split; [by rewrite getPreviousPage_last|]. split; [done|]. split.
  - intros Hs. rewrite H1, H2. unfold size in Hs.
    destruct (stack s) as [|e [|e' l]]; simpl in *; done || lia.
  - intros p1 p2 t1 t2 y1 y2.
    destruct (Hgen (push p2 t2 y2 (push p1 t1 y1 s))) as [H3 H4].
    rewrite H3. unfold toArray. rewrite H4.
    unfold push. rewrite !stack_update. simpl.
    rewrite ?stack_update. simpl.
    by rewrite removelast_last, last_snoc, map_app.
Qed.

(** X25. The back button follows the stack.  After [push] and after
    [clear] the button, when the page has one, is shown exactly if the
    stack holds more than one page; [pop] and [navigateBack] keep that, and
    on a non-empty stack they establish it. *)
Theorem back_button_follows_stack s :
  (forall p now y, button_in_step (push p now y s)) /\
  button_in_step (clear s) /\
  (isEmpty s = false ->
   button_in_step (pop s).2 /\ button_in_step (navigateBack s).2) /\
  (button_in_step s ->
   button_in_step (pop s).2 /\ button_in_step (navigateBack s).2).
Proof.
  assert (navigateBack s = ((navigateBack s).1, (pop s).2)) as Hn.
  { unfold navigateBack. destruct (pop s) as [r s1]. simpl.
    destruct (isEmpty s1); [done|]. by destruct (peek s1). }
  rewrite Hn. simpl.
  split; [intros; apply update_in_step|].
  split; [apply update_in_step|].
  destruct s as [l btn]. destruct l as [|e l _] using rev_ind.
  - split; [done|]. by rewrite pop_nil.
  - rewrite pop_snoc_entry. simpl.
    split; intros _; split; apply update_in_step.
Qed.

End NavigationFacts.

Lemma navigate_back_returns_previous_witness :
  let s := NavigationStack.Make [NavigationStack.Entry "feed" 0 0] None in
  (NavigationStack.navigateBack s).1 = None /\
  NavigationStack.stack (NavigationStack.navigateBack s).2 = [].
Proof.
  intros s.
  destruct (navigate_back_returns_previous s) as (_ & _ & H & _).
  apply H. vm_compute. lia.
Defined.

Lemma back_button_follows_stack_witness :
  let s := NavigationStack.Make
             [NavigationStack.Entry "feed" 0 0;
              NavigationStack.Entry "profile" 5 120]
             (Some (NavigationStack.Style "flex" "1")) in
  NavigationStack.button_in_step (NavigationStack.pop s).2 /\
  NavigationStack.button_in_step (NavigationStack.navigateBack s).2.
Proof.
  intros s.
  destruct (back_button_follows_stack s) as (_ & _ & H & _).
  apply H. reflexivity.
Defined.

(** ** getTimeAgo *)

Section TimeAgo.

Lemma div_div_pos a b c : 0 < b -> 0 < c -> a / b / c = a / (b * c).
Proof. intros Hb Hc. apply Z.div_div; lia. Qed.

(** X26. [getTimeAgo] answers "Just now" for anything less than a minute
    old (dates in the future included).  Otherwise it names the whole
    minutes, hours or days elapsed: a count of at least 1, minutes up to 59,
    hours up to 23, with a plural "s" exactly when the count is above 1. *)
Theorem time_ago_buckets (now date : Z) :
  (now - date < 60000 -> getTimeAgo now date = "Just now") /\
  (60000 <= now - date ->
   exists (n : Z) (unit : string),
     getTimeAgo now date =
       pretty n +:+ unit +:+ (if 1 <? n then "s" else "") +:+ " ago" /\
     1 <= n /\
     ((unit = " minute" /\ n = (now - date) / 60000 /\ n <= 59) \/
      (unit = " hour" /\ n = (now - date) / 3600000 /\ n <= 23) \/
      (unit = " day" /\ n = (now - date) / 86400000))).
Proof.
  unfold getTimeAgo. set (d := now - date).
  assert (d / 1000 / 60 = d / 60000) as Hm by (by rewrite div_div_pos).
  assert (d / 1000 / 60 / 60 = d / 3600000) as Hh
    by (by rewrite !div_div_pos).
  assert (d / 1000 / 60 / 60 / 24 = d / 86400000) as Hd
    by (by rewrite !div_div_pos).
  split.
  - intros Hlt.
    assert (d / 1000 < 60) as Hs by (apply Z.div_lt_upper_bound; lia).
    apply Z.ltb_lt in Hs. by rewrite Hs.
  - intros Hge.
    assert (60 <= d / 1000) as Hs by (apply Z.div_le_lower_bound; lia).
    destruct (Z.ltb_spec (d / 1000) 60) as [?|_]; [lia|].
    assert (1 <= d / 60000) as H1 by (apply Z.div_le_lower_bound; lia).
    rewrite Hm. destruct (Z.ltb_spec (d / 60000) 60) as [Hlt|Hmin].
    { exists (d / 60000), " minute". split; [done|]. split; [done|].
      left. repeat split; lia. }
    assert (1 <= d / 3600000) as H2.
    { rewrite <- Hh, Hm. apply Z.div_le_lower_bound; lia. }
    rewrite <- Hm, Hh. destruct (Z.ltb_spec (d / 3600000) 24) as [Hlt|Hhr].
    { exists (d / 3600000), " hour". split; [done|]. split; [done|].
      right. left. repeat split; lia. }
    assert (1 <= d / 86400000) as H3.
    { rewrite <- Hd, Hh. apply Z.div_le_lower_bound; lia. }
    rewrite <- Hh, Hd.
    exists (d / 86400000), " day". split; [done|]. split; [done|].
    right. right. done.
Qed.

End TimeAgo.

Lemma time_ago_buckets_witness :
  getTimeAgo 1000 61000 = "Just now" /\
  getTimeAgo 7300000 0 = "2 hours ago" /\
  getTimeAgo 60000 0 = "1 minute ago".
Proof.
  destruct (time_ago_buckets 1000 61000) as [H1 _].
  split; [apply H1; lia|]. split; reflexivity.
Defined.

(** Instances of the LinkedList properties on a list of friends, each a
    pair of an id and a name. *)

Lemma linked_list_add_appends_witness :
  let l := LinkedList.add (1, "ann") LinkedList.empty in
  LinkedList.find fst 2 (LinkedList.add (2, "bob") l) = Some (2, "bob").
Proof.
  intros l.
  destruct (linked_list_add_appends (K := Z) fst (2, "bob") l) as (_ & _ & H).
  apply H; reflexivity.
Defined.

Lemma linked_list_find_first_witness :
  let l := LinkedList.add (1, "ann2")
             (LinkedList.add (2, "bob")
                (LinkedList.add (1, "ann") LinkedList.empty)) in
  LinkedList.find fst 1 l = Some (1, "ann").
Proof.
  intros l.
  destruct (linked_list_find_first (K := Z) fst l 1) as [_ H].
  apply (H [] (1, "ann") [(2, "bob"); (1, "ann2")]); [reflexivity..|].
  intros y Hy. by apply not_elem_of_nil in Hy.
Defined.

Lemma linked_list_remove_first_witness :
  let l := LinkedList.add (1, "ann2")
             (LinkedList.add (1, "ann")
                (LinkedList.add (2, "bob") LinkedList.empty)) in
  LinkedList.toArray (LinkedList.remove fst 1 l).2 = [(2, "bob"); (1, "ann2")]
  /\ LinkedList.getSize (LinkedList.remove fst 1 l).2 = 2
  /\ LinkedList.remove fst 3 l = (false, l).
Proof.
  intros l.
  destruct (linked_list_remove_first (K := Z) fst l 1) as (H1 & _).
  destruct (linked_list_remove_first (K := Z) fst l 3) as (_ & H3 & _).
  destruct (H1 [(2, "bob")] (1, "ann") [(1, "ann2")] eq_refl eq_refl)
    as (_ & Ha & Hs).
  { intros y Hy. apply list_elem_of_singleton in Hy as ->. simpl. lia. }
  split; [exact Ha|]. split; [rewrite Hs; reflexivity|].
  apply H3. reflexivity.
Defined.

Lemma linked_list_size_counts_witness :
  let l := (LinkedList.remove fst 1
              (LinkedList.add (2, "bob")
                 (LinkedList.add (1, "ann") LinkedList.empty))).2 in
  LinkedList.getSize l = 1.
Proof.
  intros l.
  assert (LinkedList.reachable (K := Z) fst l) as R.
  { apply LinkedList.reachable_remove, LinkedList.reachable_add,
      LinkedList.reachable_add, LinkedList.reachable_empty. }
  destruct (linked_list_size_counts fst l R) as [H _].
  rewrite H. reflexivity.
Defined.

Lemma linked_list_remove_then_find_witness :
  let l := LinkedList.add (2, "bob")
             (LinkedList.add (1, "ann") LinkedList.empty) in
  LinkedList.find fst 1 (LinkedList.remove fst 1 l).2 = None /\
  LinkedList.find fst 2 (LinkedList.remove fst 1 l).2 = Some (2, "bob").
Proof.
  intros l.
  destruct (linked_list_remove_then_find (K := Z) fst l 1) as [Hother Hgone].
  split.
  - apply Hgone. apply (bool_decide_unpack _). vm_compute. reflexivity.
  - rewrite Hother by lia. reflexivity.
Defined.

(** ** Likes *)

Section LikeFacts.

Import Social.

Implicit Types (d : PostStore.t) (userId post_id : Z).

Lemma filter_none_all {A} (P : A -> Prop) `{!forall x, Decision (P x)}
    (l : list A) :
  filter P l = [] -> filter (fun x => ~ P x) l = l.
Proof.
  induction l as [|x l IH]; [done|].
  rewrite !filter_cons. destruct (decide (P x)) as [HP|HP]; [done|].
  intros Hl. rewrite decide_True by done. by rewrite IH.
Qed.

Lemma filter_not_then {A} (P : A -> Prop) `{!forall x, Decision (P x)}
    (l : list A) :
  filter P (filter (fun x => ~ P x) l) = [].
Proof.
  induction l as [|x l IH]; [done|].
  rewrite filter_cons. destruct (decide (~ P x)) as [HP|HP]; [|done].
  by rewrite filter_cons_False.
Qed.

Lemma with_likes_same d : with_likes d (PostStore.likes_table d) = d.
Proof. by destruct d. Qed.

(** X27. A like by a user with no like on the post is answered 200 and adds
    exactly one row, for that post and user.  A second like, its check
    meeting no error, is refused with "Post already liked" and adds
    nothing.  An unlike whose delete meets no error then takes the row out
    again: the database is the one from before the like. *)
Theorem like_once_then_unlike userId post_id new_id f d :
  post_id <> 0 ->
  likes_of post_id userId d = [] ->
  lf_insert f = None ->
  let r1 := like_post userId (Some post_id) new_id f d in
  status r1.2 = 200 /\
  r1.1 = with_likes d (PostStore.likes_table d ++ [Like post_id userId]) /\
  (forall new_id' f',
     lf_check f' = None ->
     like_post userId (Some post_id) new_id' f' r1.1 =
       (r1.1, failure 400 "Post already liked" None)) /\
  (forall g,
     nf_delete g = None ->
     (unlike_post userId (Some post_id) g r1.1).1 = d /\
     status (unlike_post userId (Some post_id) g r1.1).2 = 200).
Proof.
  intros Hid Hnone Hins r1.
  assert (r1 = (with_likes d (PostStore.likes_table d ++ [Like post_id userId]),
                ok 200 "Post liked successfully"
                  (LikeData new_id post_id
                     (or_zero (PostStore.count_likes (lf_count f) post_id
                        (with_likes d
                           (PostStore.likes_table d ++ [Like post_id userId]))))))
         ) as ->.
  { unfold r1, like_post. simpl. apply Z.eqb_neq in Hid. rewrite Hid.
    unfold select_like, insert_like. rewrite Hins.
    destruct (lf_check f); [done|]. by rewrite Hnone. }
  simpl. split; [done|]. split; [done|].
  assert (likes_of post_id userId
            (with_likes d (PostStore.likes_table d ++ [Like post_id userId]))
          = [Like post_id userId]) as Hone.
  { unfold likes_of in *. simpl. rewrite filter_app, Hnone. simpl.
    rewrite filter_cons, decide_True by done. done. }
  split.
  - intros new_id' f' Hchk. unfold like_post. simpl.
    apply Z.eqb_neq in Hid. rewrite Hid.
    unfold select_like. by rewrite Hchk, Hone.
  - intros g Hdel. unfold unlike_post. simpl.
    apply Z.eqb_neq in Hid. rewrite Hid.
    unfold delete_like. rewrite Hdel. simpl. split; [|done].
    unfold with_likes. simpl. rewrite filter_app.
    unfold likes_of in Hnone. rewrite (filter_none_all _ _ Hnone).
    rewrite filter_cons, decide_False by (intros Hn; by apply Hn).
    simpl. rewrite app_nil_r. by destruct d.
Qed.

(** X28. An unlike with a post id, its delete meeting no error, is always
    answered 200, whether or not the user had liked the post.  Afterwards
    the user has no like on the post; the likes of other users and on other
    posts, and the posts and comments, are as before; and the count it
    reports, when the count query answers, is the number of likes left on
    the post. *)
Theorem unlike_removes_own_likes userId post_id f d :
  post_id <> 0 ->
  nf_delete f = None ->
  let r := unlike_post userId (Some post_id) f d in
  status r.2 = 200 /\
  likes_of post_id userId r.1 = [] /\
  (forall k u, ~ (k = post_id /\ u = userId) ->
               likes_of k u r.1 = likes_of k u d) /\
  PostStore.posts r.1 = PostStore.posts d /\
  PostStore.comments_table r.1 = PostStore.comments_table d /\
  (likes_of post_id userId d = [] -> r.1 = d) /\
  (nf_count f = None ->
   body r.2 =
     Some (UnlikeData post_id
             (length (filter (fun l => like_post_id l = post_id)
                        (PostStore.likes_table r.1))))).
Proof.
  intros Hid Hdel r. subst r. unfold unlike_post. simpl.
  apply Z.eqb_neq in Hid. rewrite Hid.
  unfold delete_like. rewrite Hdel. simpl.
  split; [done|]. split; [apply filter_not_then|]. split.
  - intros k u Hne. unfold likes_of. simpl.
    rewrite list_filter_filter. apply list_filter_iff.
    intros l. split; [tauto|]. intros [Hk Hu]. split; [done|].
    intros [Hk' Hu']. apply Hne. split; congruence.
  - split; [done|]. split; [done|]. split.
    + intros Hnone. unfold likes_of in Hnone.
      rewrite (filter_none_all _ _ Hnone). apply with_likes_same.
    + intros Hcnt. unfold PostStore.count_likes. by rewrite Hcnt.
Qed.

End LikeFacts.

Lemma like_once_then_unlike_witness :
  let r1 := Social.like_post 7 (Some 1) 100 (Social.LikeFaults None None None)
              sample_db in
  Social.status r1.2 = 200 /\
  Social.like_post 7 (Some 1) 101 (Social.LikeFaults None None None) r1.1 =
    (r1.1, Social.failure 400 "Post already liked" None) /\
  (Social.unlike_post 7 (Some 1) (Social.UnlikeFaults None None) r1.1).1 =
    sample_db.
Proof.
  assert (1 <> 0) as Hid by lia.
  destruct (like_once_then_unlike 7 1 100 (Social.LikeFaults None None None)
              sample_db Hid eq_refl eq_refl) as (H1 & _ & H2 & H3).
  split; [exact H1|]. split.
  - apply H2. reflexivity.
  - apply H3. reflexivity.
Defined.

Lemma unlike_removes_own_likes_witness :
  let r := Social.unlike_post 8 (Some 1) (Social.UnlikeFaults None None)
             sample_db in
  Social.status r.2 = 200 /\
  PostStore.likes_table r.1 = [Like 1 9] /\
  Social.body r.2 = Some (Social.UnlikeData 1 1).
Proof.
  assert (1 <> 0) as Hid by lia.
  destruct (unlike_removes_own_likes 8 1 (Social.UnlikeFaults None None)
              sample_db Hid eq_refl) as (H1 & _ & _ & _ & _ & _ & H2).
  split; [exact H1|]. split; [reflexivity|].
  rewrite H2; reflexivity.
Defined.

(** ** Comments *)

Section CommentFacts.

Import Social.

Implicit Types (d : PostStore.t) (userId commentId post_id : Z) (c : comment).

Lemma with_comments_same d : with_comments d (PostStore.comments_table d) = d.
Proof. by destruct d. Qed.

(** The rows with id [k] after rewriting the text of the rows with id [k]. *)
Lemma filter_id_retext (k : Z) (text : JS.str) (l : list comment) :
  filter (fun c => comment_id c = k)
    (map (fun c => if decide (comment_id c = k) then with_text c text else c) l)
  = map (fun c => with_text c text) (filter (fun c => comment_id c = k) l).
Proof.
  induction l as [|c l IH]; [done|]. simpl.
  destruct (decide (comment_id c = k)) as [Hk|Hk].
  - rewrite !filter_cons, !decide_True by done. simpl. by rewrite IH.
  - rewrite !filter_cons, !decide_False by done. done.
Qed.

(** The rows with another id are not rewritten. *)
Lemma filter_other_retext (k : Z) (text : JS.str) (l : list comment) :
  filter (fun c => comment_id c ≠ k)
    (map (fun c => if decide (comment_id c = k) then with_text c text else c) l)
  = filter (fun c => comment_id c ≠ k) l.
Proof.
  induction l as [|c l IH]; [done|]. simpl.
  destruct (decide (comment_id c = k)) as [Hk|Hk].
  - rewrite !filter_cons_False by (simpl; intros Hn; by apply Hn). done.
  - rewrite !filter_cons, !decide_True by done. by rewrite IH.
Qed.

(** X29. A comment request with a post id and a text that is not empty once
    trimmed, its insert meeting no error, is answered 201 and appends
    exactly one comment: on that post, by the requesting user, with the
    trimmed text.  The count it reports, when the count query answers, is
    one more than the post had.  A request without post id, without text or
    with a blank text is answered 400 and adds nothing. *)
Theorem add_comment_appends userId new_id f d :
  (forall post_id text,
     post_id <> 0 ->
     length (JS.trim text) <> 0%nat ->
     af_insert f = None ->
     let r := add_comment userId (Some post_id) (Some text) new_id f d in
     let c := Comment new_id post_id userId (JS.trim text) in
     status r.2 = 201 /\
     r.1 = with_comments d (PostStore.comments_table d ++ [c]) /\
     (af_count f = None ->
      body r.2 =
        Some (CommentAdded c
                (S (length (filter (fun x => comment_post_id x = post_id)
                              (PostStore.comments_table d))))))) /\
  (forall req_post_id req_text,
     not_id req_post_id = true \/ not_str req_text = true \/
     length (JS.trim (default [] req_text)) = 0%nat ->
     (add_comment userId req_post_id req_text new_id f d).1 = d /\
     status (add_comment userId req_post_id req_text new_id f d).2 = 400).
Proof.
  split.
  - intros post_id text Hid Ht Hins r c. subst r c. unfold add_comment. simpl.
    pose proof (trim_nonempty text Ht) as Hs.
    apply Z.eqb_neq in Hid. apply Nat.eqb_neq in Ht, Hs.
    rewrite Hid, Hs, Ht. simpl. unfold insert_comment. rewrite Hins. simpl.
    split; [done|]. split; [done|]. intros Hcnt.
    unfold PostStore.count_comments. rewrite Hcnt. simpl.
    rewrite filter_app, length_app. simpl.
    rewrite filter_cons, decide_True by done. simpl.
    do 3 f_equal. lia.
  - intros req_post_id req_text H. unfold add_comment.
    destruct (not_id req_post_id || not_str req_text) eqn:Hv; [done|].
    apply orb_false_iff in Hv as [Hv1 Hv2].
    destruct H as [H | [H | H]]; [congruence | congruence |].
    by rewrite H.
Qed.

(** What edit and delete do to the one comment under an id. *)
Lemma comment_author_cases userId commentId c text fe fx d :
  comments_with_id commentId d = [c] ->
  length (JS.trim text) <> 0%nat ->
  cf_fetch fe = None ->
  xf_fetch fx = None ->
  let re := edit_comment userId commentId (Some text) fe d in
  let rx := delete_comment userId commentId fx d in
  (comment_author_id c <> userId ->
   re = (d, failure 403 "You can only edit your own comments" None) /\
   rx = (d, failure 403 "You can only delete your own comments" None)) /\
  (comment_author_id c = userId ->
   (cf_update fe = None ->
    re.2 = ok 200 "Comment updated successfully"
             (CommentEdited (with_text c (JS.trim text)) (comment_text c)) /\
    comments_with_id commentId re.1 = [with_text c (JS.trim text)] /\
    filter (fun x => comment_id x ≠ commentId) (PostStore.comments_table re.1) =
      filter (fun x => comment_id x ≠ commentId) (PostStore.comments_table d)) /\
   (xf_delete fx = None ->
    status rx.2 = 200 /\
    comments_with_id commentId rx.1 = [] /\
    PostStore.comments_table rx.1 =
      filter (fun x => comment_id x ≠ commentId) (PostStore.comments_table d))).
Proof.
  intros Hone Ht Hfe Hfx re rx. subst re rx.
  unfold edit_comment, delete_comment. simpl.
  pose proof (trim_nonempty text Ht) as Hs.
  apply Nat.eqb_neq in Ht, Hs. rewrite Hs, Ht. simpl.
  unfold select_comment. rewrite Hfe, Hfx, Hone. simpl.
  split.
  - intros Hne. apply Z.eqb_neq in Hne. by rewrite Hne.
  - intros Heq. apply Z.eqb_eq in Heq. rewrite Heq. simpl. split.
    + intros Hup. unfold update_comment. rewrite Hup. simpl.
      unfold comments_with_id in *. simpl.
      rewrite filter_id_retext, Hone. simpl.
      split; [done|]. split; [|apply filter_other_retext].
      by rewrite filter_id_retext, Hone.
    + intros Hdel. unfold delete_comment_rows. rewrite Hdel. simpl.
      split; [done|]. split; [|done].
      unfold comments_with_id. simpl.
      apply (filter_same_key comment_id).
Qed.

(** An id that matches no comment is answered 404, for edit and delete. *)
Lemma comment_not_found userId commentId text fe fx d :
  comments_with_id commentId d = [] ->
  length (JS.trim text) <> 0%nat ->
  edit_comment userId commentId (Some text) fe d =
    (d, failure 404 "Comment not found" None) /\
  delete_comment userId commentId fx d =
    (d, failure 404 "Comment not found" None).
Proof.
  intros Hnone Ht. unfold edit_comment, delete_comment. simpl.
  pose proof (trim_nonempty text Ht) as Hs.
  apply Nat.eqb_neq in Ht, Hs. rewrite Hs, Ht. simpl.
  unfold select_comment. rewrite Hnone.
  by destruct (cf_fetch fe), (xf_fetch fx).
Qed.

(** X30. Only its author can change or remove a comment.  With one comment
    under the id and a valid text: another user's edit is answered 403 and
    another user's delete is answered 403, neither changing anything; the
    author's edit, meeting no error, is answered 200, sets the trimmed text
    on that comment and reports the old text; the author's delete, meeting
    no error, is answered 200 and removes that comment.  Comments with
    other ids are untouched, and an id that matches no comment is answered
    404. *)
Theorem comment_author_only userId commentId text fe fx d :
  length (JS.trim text) <> 0%nat ->
  cf_fetch fe = None ->
  xf_fetch fx = None ->
  let re := edit_comment userId commentId (Some text) fe d in
  let rx := delete_comment userId commentId fx d in
  (comments_with_id commentId d = [] ->
   re = (d, failure 404 "Comment not found" None) /\
   rx = (d, failure 404 "Comment not found" None)) /\
  (forall c,
     comments_with_id commentId d = [c] ->
     (comment_author_id c <> userId ->
      re = (d, failure 403 "You can only edit your own comments" None) /\
      rx = (d, failure 403 "You can only delete your own comments" None)) /\
     (comment_author_id c = userId ->
      (cf_update fe = None ->
       re.2 = ok 200 "Comment updated successfully"
                (CommentEdited (with_text c (JS.trim text)) (comment_text c)) /\
       comments_with_id commentId re.1 = [with_text c (JS.trim text)] /\
       filter (fun x => comment_id x ≠ commentId)
         (PostStore.comments_table re.1) =
       filter (fun x => comment_id x ≠ commentId)
         (PostStore.comments_table d)) /\
      (xf_delete fx = None ->
       status rx.2 = 200 /\
       comments_with_id commentId rx.1 = [] /\
       PostStore.comments_table rx.1 =
         filter (fun x => comment_id x ≠ commentId)
           (PostStore.comments_table d)))).
Proof.
  intros Ht Hfe Hfx re rx. split.
  - intros Hnone. by apply comment_not_found.
  - intros c Hone. by apply comment_author_cases.
Qed.

End CommentFacts.

Lemma add_comment_appends_witness :
  let r := Social.add_comment 7 (Some 1) (Some (JS.lit " hi ")) 2
             (Social.AddCommentFaults None None) sample_db in
  Social.status r.2 = 201 /\
  Social.body r.2 = Some (Social.CommentAdded (Comment 2 1 7 (JS.lit "hi")) 2).
Proof.
  assert (1 <> 0) as Hid by lia.
  assert (length (JS.trim (JS.lit " hi ")) <> 0%nat) as Ht by (vm_compute; lia).
  destruct (add_comment_appends 7 2 (Social.AddCommentFaults None None)
              sample_db) as [H _].
  destruct (H 1 (JS.lit " hi ") Hid Ht eq_refl) as (H1 & _ & H2).
  split; [exact H1|]. rewrite H2; reflexivity.
Defined.

Lemma comment_author_only_witness :
  Social.edit_comment 7 1 (Some (JS.lit "edited"))
    (Social.EditCommentFaults None None) sample_db =
    (sample_db,
     Social.failure 403 "You can only edit your own comments" None) /\
  PostStore.comments_table
    (Social.delete_comment 8 1 (Social.DeleteCommentFaults None None None)
       sample_db).1 = [].
Proof.
  assert (length (JS.trim (JS.lit "edited")) <> 0%nat) as Ht
    by (vm_compute; lia).
  destruct (comment_author_only 7 1 (JS.lit "edited")
              (Social.EditCommentFaults None None)
              (Social.DeleteCommentFaults None None None) sample_db
              Ht eq_refl eq_refl) as [_ H7].
  destruct (comment_author_only 8 1 (JS.lit "edited")
              (Social.EditCommentFaults None None)
              (Social.DeleteCommentFaults None None None) sample_db
              Ht eq_refl eq_refl) as [_ H8].
  destruct (H7 (Comment 1 1 8 (JS.lit "nice")) eq_refl) as [Hother _].
  destruct (H8 (Comment 1 1 8 (JS.lit "nice")) eq_refl) as [_ Hown].
  split.
  - apply Hother. simpl. lia.
  - destruct (Hown eq_refl) as [_ Hdel].
    destruct (Hdel eq_refl) as (_ & _ & Htab). rewrite Htab. reflexivity.
Defined.

(** Instances of the agreement of the observers of an undo array. *)

Lemma empty_observers_agree_witness :
  let stacks : UndoStack.t := {[ 7 := [] ]} in
  UndoStack.size 7 stacks = 0%nat /\
  UndoStack.peek 7 stacks = None /\
  (UndoStack.pop 7 stacks).2 = stacks.
Proof.
  intros stacks.
  destruct (empty_observers_agree stacks 7) as (Hs & Hp & Hq & Hsame).
  assert (UndoStack.isEmpty 7 stacks = true) as He by reflexivity.
  split; [by apply Hs|]. split; [by apply Hp|].
  apply Hsame. by apply Hq.
Defined.

Lemma undo_status_consistent_witness :
  let sv := Server {[ 7 := [sample_edit 1; Delete (PostStore.row 1
                       (PostStore.Columns 7 (JS.lit "A") 3 "t")) "t2"] ]}
              sample_db in
  status_of (undo_status 7 sv).2 = Some (true, 2%nat, Some ("DELETE", "t2")).
Proof.
  intros sv.
  destruct (undo_status_consistent 7 sv)
    as (_ & _ & available & count & last & Hst & Hc & Ha & _ & Hl).
  rewrite Hst, Hc, Hl. f_equal. f_equal. f_equal.
  apply Ha. rewrite Hc. vm_compute. lia.
Defined.
